(** * Sandbox runtime of madfam-io/penny: capability policy, import hook,
      execution context and output handler

    A shallow embedding of [apps/sandbox/python]:
    - [sandbox_env.py]    the allow and deny tables and their lookups;
    - [import_hook.py]    installing and removing the import hook;
    - [runtime.py]        [execution_context] and [execute_code];
    - [output_handler.py] [serialize_variables].

    The policy tables are only ever looked up, so they are a [gmap] and a
    [gset].  Python dictionaries that the code iterates over (the execution
    globals, the session bindings) keep their insertion order and are
    association lists. *)

From Stdlib Require Import ZArith Ascii String.
From stdpp Require Import gmap strings list fin_maps pretty.

Open Scope string_scope.
Open Scope list_scope.

(** ** Text helpers: [str.split], [str.join], [str.startswith] *)

Module Text.

(** [s.split(sep)] for a one-character separator: never empty, and an
    empty text gives one empty part. *)
Fixpoint split (sep : ascii) (s : string) : list string :=
  match s with
  | EmptyString => [EmptyString]
  | String c rest =>
      if Ascii.eqb c sep then EmptyString :: split sep rest
      else match split sep rest with
           | [] => [String c EmptyString]
           | p :: ps => String c p :: ps
           end
  end.

(** [sep.join(parts)]. *)
Fixpoint join (sep : string) (parts : list string) : string :=
  match parts with
  | [] => EmptyString
  | [p] => p
  | p :: rest => p +:+ sep +:+ join sep rest
  end.

(** [s.startswith(c)] for a one-character prefix. *)
Definition startswith (c : ascii) (s : string) : bool :=
  match s with
  | EmptyString => false
  | String d _ => Ascii.eqb d c
  end.

(** [s[:n]]. *)
Definition slice_to (n : nat) (s : string) : string := String.substring 0 n s.

End Text.

(** ** Python values

    The built-in types the code tells apart are constructors; a float is its
    IEEE-754 bit pattern, a dictionary has text keys, and an instance of any
    other type is opaque and known by an identifier.  What the interpreter
    does with a value ([str], [callable], [json.dumps], ...) is part of the
    [Python] interface below. *)

#[warnings="-register-all"]
Inductive value : Type :=
  | VNone
  | VBool (b : bool)
  | VInt (z : Z)
  | VFloat (bits : Z)
  | VStr (s : string)
  | VList (items : list value)
  | VTuple (items : list value)
  | VDict (items : list (string * value))
  | VModule (name : string)
  | VBuiltin (name : string)
  | VObject (oid : nat).

(** ** Insertion-ordered dictionaries *)

Module Dict.

Section WithValues.
Context {V : Type}.

Definition t := list (string * V).

Definition empty : t := [].

(** [d[k] = v]: an existing key keeps its place, a new one goes last. *)
Fixpoint set (k : string) (v : V) (d : t) : t :=
  match d with
  | [] => [(k, v)]
  | (k', v') :: rest =>
      if String.eqb k k' then (k, v) :: rest else (k', v') :: set k v rest
  end.

Fixpoint get (k : string) (d : t) : option V :=
  match d with
  | [] => None
  | (k', v') :: rest => if String.eqb k k' then Some v' else get k rest
  end.

(** [d.update(other)]. *)
Definition update (d other : t) : t :=
  fold_left (fun acc kv => set kv.1 kv.2 acc) other d.

Definition keys (d : t) : list string := map fst d.

(** Truthiness of a dictionary: empty is false. *)
Definition truthy (d : t) : bool :=
  match d with [] => false | _ => true end.

End WithValues.

Arguments t : clear implicits.

End Dict.

(** ** sandbox_env.py: the capability policy *)

Record SandboxEnvironment : Type := {
  allowed_modules : gmap string (list string);
  blocked_modules : gset string;
  allowed_builtins : list string;
  preloaded_modules : Dict.t value
}.

(** The tables of [SandboxEnvironment.__init__]. *)
Definition default_allowed_modules : gmap string (list string) :=
  list_to_map [
    ("math", ["*"]);
    ("random", ["random"; "randint"; "uniform"; "choice"; "shuffle"; "seed"]);
    ("datetime", ["*"]);
    ("time", ["time"; "sleep"]);
    ("json", ["loads"; "dumps"]);
    ("re", ["*"]);
    ("string", ["*"]);
    ("collections", ["*"]);
    ("itertools", ["*"]);
    ("functools", ["*"]);
    ("operator", ["*"]);
    ("copy", ["copy"; "deepcopy"]);
    ("decimal", ["*"]);
    ("fractions", ["*"]);
    ("statistics", ["*"]);
    ("numpy", ["*"]);
    ("pandas", ["*"]);
    ("matplotlib", ["*"]);
    ("matplotlib.pyplot", ["*"]);
    ("seaborn", ["*"]);
    ("plotly", ["*"]);
    ("scipy", ["*"]);
    ("sklearn", ["*"]);
    ("PIL", ["*"]);
    ("base64", ["b64encode"; "b64decode"]);
    ("hashlib", ["md5"; "sha1"; "sha256"]);
    ("uuid", ["*"]);
    ("urllib.parse", ["*"]);
    ("textwrap", ["*"]);
    ("pprint", ["pprint"; "pformat"])
  ].

Definition default_blocked_modules : gset string :=
  list_to_set [
    "os"; "sys"; "subprocess"; "shutil"; "glob"; "pathlib";
    "socket"; "urllib.request"; "urllib.error"; "http";
    "smtplib"; "poplib"; "imaplib"; "ftplib";
    "threading"; "multiprocessing"; "_thread";
    "ctypes"; "ctypes.util"; "ctypes.wintypes";
    "importlib"; "pkgutil"; "modulefinder";
    "ast"; "code"; "codeop"; "compile"; "dis";
    "gc"; "inspect"; "types"; "weakref";
    "pickle"; "marshal"; "shelve"; "dbm"
  ].

Definition default_allowed_builtins : list string := [
    "int"; "float"; "str"; "bool"; "list"; "tuple"; "dict"; "set";
    "complex"; "bytes"; "bytearray"; "frozenset";
    "len"; "range"; "enumerate"; "zip"; "map"; "filter";
    "sorted"; "reversed"; "sum"; "min"; "max"; "abs";
    "round"; "pow"; "divmod"; "hash"; "id"; "type";
    "isinstance"; "issubclass"; "hasattr"; "getattr";
    "setattr"; "delattr"; "callable";
    "iter"; "next"; "all"; "any";
    "repr"; "str"; "format"; "ord"; "chr"; "hex"; "oct"; "bin";
    "Exception"; "ValueError"; "TypeError"; "KeyError";
    "IndexError"; "AttributeError"; "ImportError";
    "RuntimeError"; "ZeroDivisionError"; "OverflowError";
    "True"; "False"; "None"; "NotImplemented"; "Ellipsis";
    "print"
  ].

(** [_preload_safe_modules]: the modules of [safe_to_preload] that the host
    can import, each bound under its own name. *)
Definition _preload_safe_modules (importable : string → bool) : Dict.t value :=
  fold_left
    (fun acc module_name =>
       if importable module_name
       then Dict.set module_name (VModule module_name) acc
       else acc)
    ["math"; "random"; "datetime"; "json"; "re"] Dict.empty.

Definition new_environment (importable : string → bool) : SandboxEnvironment :=
  {| allowed_modules := default_allowed_modules;
     blocked_modules := default_blocked_modules;
     allowed_builtins := default_allowed_builtins;
     preloaded_modules := _preload_safe_modules importable |}.

(** The environment on a host where every preloaded module imports. *)
Definition default_environment : SandboxEnvironment :=
  new_environment (fun _ => true).

Definition is_blocked (env : SandboxEnvironment) (name : string) : bool :=
  bool_decide (name ∈ blocked_modules env).

Definition is_listed (env : SandboxEnvironment) (name : string) : bool :=
  bool_decide (is_Some (allowed_modules env !! name)).

(** ['.'.join(parts[:i+1])]. *)
Definition parent_module (parts : list string) (i : nat) : string :=
  Text.join "." (take (i + 1) parts).

(** The [for i in range(len(parts))] loop of [is_module_allowed], over the
    indices still to visit; running off the end is the default block. *)
Fixpoint check_parents (env : SandboxEnvironment) (parts : list string)
    (indices : list nat) : bool :=
  match indices with
  | [] => false
  | i :: rest =>
      if is_blocked env (parent_module parts i) then false
      else if is_listed env (parent_module parts i) then true
      else check_parents env parts rest
  end.

Definition is_module_allowed (env : SandboxEnvironment) (module_name : string)
    : bool :=
  if is_blocked env module_name then false
  else if is_listed env module_name then true
  else
    let parts := Text.split "." module_name in
    check_parents env parts (seq 0 (length parts)).

(** The dotted prefixes of a name in the order the loop builds them. *)
Definition dotted_prefixes (module_name : string) : list string :=
  let parts := Text.split "." module_name in
  map (parent_module parts) (seq 0 (length parts)).

(** [get_allowed_attributes]: [None] stands for "no restriction". *)
Definition get_allowed_attributes (env : SandboxEnvironment)
    (module_name : string) : option (list string) :=
  match allowed_modules env !! module_name with
  | Some attrs => if bool_decide ("*" ∈ attrs) then None else Some attrs
  | None => None
  end.

(** A module object: its name and its namespace. *)
Record module : Type := {
  module_name_of : string;
  module_dict : Dict.t value
}.

(** [ModuleType(name)]: a fresh module carries these five attributes. *)
Definition ModuleType (name : string) : module :=
  {| module_name_of := name;
     module_dict := [("__name__", VStr name); ("__doc__", VNone);
                     ("__package__", VNone); ("__loader__", VNone);
                     ("__spec__", VNone)] |}.

Definition setattr (m : module) (attr : string) (v : value) : module :=
  {| module_name_of := module_name_of m;
     module_dict := Dict.set attr v (module_dict m) |}.

Definition filter_module_attributes (env : SandboxEnvironment) (m : module)
    (module_name : string) : module :=
  match get_allowed_attributes env module_name with
  | None => m
  | Some allowed_attrs =>
      fold_left
        (fun filtered attr_name =>
           match Dict.get attr_name (module_dict m) with
           | Some v => setattr filtered attr_name v
           | None => filtered
           end)
        allowed_attrs (ModuleType module_name)
  end.

(** *** The resolution order as the specification words it

    Exact deny, exact allow, then the dotted prefixes from the most specific
    to the least specific, first match wins, default deny. *)
Fixpoint first_match (env : SandboxEnvironment) (candidates : list string)
    : bool :=
  match candidates with
  | [] => false
  | p :: rest =>
      if is_blocked env p then false
      else if is_listed env p then true
      else first_match env rest
  end.

Definition is_module_allowed_spec (env : SandboxEnvironment)
    (module_name : string) : bool :=
  if is_blocked env module_name then false
  else if is_listed env module_name then true
  else first_match env (rev (dotted_prefixes module_name)).

(** The attribute restriction as the specification words it: a name with no
    entry of its own takes the restriction of the prefix that allowed it. *)
Fixpoint inherited_attributes (env : SandboxEnvironment)
    (candidates : list string) : option (list string) :=
  match candidates with
  | [] => None
  | p :: rest =>
      if is_listed env p then get_allowed_attributes env p
      else inherited_attributes env rest
  end.

(** ** Exceptions

    The classes the sources name, with their places in Python's hierarchy;
    [UserClass] is a class derived by the executed code.  An exception is
    known by its class and by the text [str(e)] gives. *)

Inductive exc_class : Type :=
  | BaseException
  | Exception
  | KeyboardInterrupt
  | SystemExit
  | ArithmeticError
  | ZeroDivisionError
  | OSError
  | TimeoutError
  | PermissionError
  | MemoryError
  | RuntimeError
  | RecursionError
  | TypeError
  | ValueError
  | LookupError
  | KeyError
  | NameError
  | AttributeError
  | ImportError
  | SecurityError
  | UserClass (name : string) (base : exc_class).

#[global] Instance exc_class_eq_dec : EqDecision exc_class.
Proof. solve_decision. Defined.

(** The class and its ancestors, nearest first. *)
Fixpoint mro (c : exc_class) : list exc_class :=
  match c with
  | BaseException => [BaseException]
  | Exception => [Exception; BaseException]
  | KeyboardInterrupt => [KeyboardInterrupt; BaseException]
  | SystemExit => [SystemExit; BaseException]
  | ArithmeticError => [ArithmeticError; Exception; BaseException]
  | ZeroDivisionError =>
      [ZeroDivisionError; ArithmeticError; Exception; BaseException]
  | OSError => [OSError; Exception; BaseException]
  | TimeoutError => [TimeoutError; OSError; Exception; BaseException]
  | PermissionError => [PermissionError; OSError; Exception; BaseException]
  | MemoryError => [MemoryError; Exception; BaseException]
  | RuntimeError => [RuntimeError; Exception; BaseException]
  | RecursionError => [RecursionError; RuntimeError; Exception; BaseException]
  | TypeError => [TypeError; Exception; BaseException]
  | ValueError => [ValueError; Exception; BaseException]
  | LookupError => [LookupError; Exception; BaseException]
  | KeyError => [KeyError; LookupError; Exception; BaseException]
  | NameError => [NameError; Exception; BaseException]
  | AttributeError => [AttributeError; Exception; BaseException]
  | ImportError => [ImportError; Exception; BaseException]
  | SecurityError => [SecurityError; Exception; BaseException]
  | UserClass name base => UserClass name base :: mro base
  end.

(** [issubclass(c, d)], which is what an [except d] clause tests. *)
Definition issubclass (c d : exc_class) : bool :=
  bool_decide (d ∈ mro c).

(** [type(e).__name__]. *)
Definition class_name (c : exc_class) : string :=
  match c with
  | BaseException => "BaseException"
  | Exception => "Exception"
  | KeyboardInterrupt => "KeyboardInterrupt"
  | SystemExit => "SystemExit"
  | ArithmeticError => "ArithmeticError"
  | ZeroDivisionError => "ZeroDivisionError"
  | OSError => "OSError"
  | TimeoutError => "TimeoutError"
  | PermissionError => "PermissionError"
  | MemoryError => "MemoryError"
  | RuntimeError => "RuntimeError"
  | RecursionError => "RecursionError"
  | TypeError => "TypeError"
  | ValueError => "ValueError"
  | LookupError => "LookupError"
  | KeyError => "KeyError"
  | NameError => "NameError"
  | AttributeError => "AttributeError"
  | ImportError => "ImportError"
  | SecurityError => "SecurityError"
  | UserClass name _ => name
  end.

Record exception : Type := {
  exc_type : exc_class;
  exc_message : string
}.

Definition catches (handler : exc_class) (e : exception) : bool :=
  issubclass (exc_type e) handler.

(** What a Python expression or call comes to. *)
Inductive outcome (A : Type) : Type :=
  | Return (a : A)
  | Raise (e : exception).

Arguments Return {A} a.
Arguments Raise {A} e.

#[global] Instance outcome_ret : MRet outcome := fun A a => Return a.
#[global] Instance outcome_bind : MBind outcome := fun A B f m =>
  match m with
  | Return a => f a
  | Raise e => Raise e
  end.

(** ** Signals and their handlers (runtime.py) *)

Inductive signal : Type := SIGALRM | SIGTERM.

(** [_timeout_handler] raises this. *)
Definition _timeout_handler : exception :=
  {| exc_type := TimeoutError; exc_message := "Code execution timeout" |}.

(** [_termination_handler] raises this. *)
Definition _termination_handler : exception :=
  {| exc_type := KeyboardInterrupt; exc_message := "Execution terminated" |}.

(** The handlers [_install_security_hooks] registers. *)
Definition installed_handler (sig : signal) : exception :=
  match sig with
  | SIGALRM => _timeout_handler
  | SIGTERM => _termination_handler
  end.

(** ** The interpreter

    How the executed code left off. *)
Inductive exec_end : Type :=
  | Finished
  | Faulted (e : exception)
  | Interrupted (sig : signal).

(** What one [exec(code, execution_globals)] did: the text the code wrote to
    [sys.stdout] and [sys.stderr] before it stopped, the globals dictionary
    as the code left it (it is mutated in place, also when the code stops
    early), the plots the output handler captured meanwhile, and how the
    code stopped.  [Interrupted sig] says that [sig] was delivered while the
    code ran and that the code did not catch what the handler raised. *)
Record exec_outcome : Type := {
  ex_stdout : string;
  ex_stderr : string;
  ex_globals : Dict.t value;
  ex_plots : list (Dict.t value);
  ex_end : exec_end
}.

(** The interpreter and library calls the sources make.  They are not code
    of the repository, so they are an interface. *)
Class Python : Type := {
  (** [exec(code, globals)] *)
  py_exec : string → Dict.t value → exec_outcome;
  (** [hasattr(builtins, name)] *)
  py_has_builtin : string → bool;
  (** [callable(value)] *)
  py_callable : value → bool;
  (** [hasattr(value, '__module__')] *)
  py_has_module_attr : value → bool;
  (** [str(value)] *)
  py_str : value → outcome string;
  (** [type(value).__name__] and [type(value).__module__] *)
  py_type_name : value → string;
  py_type_module : value → string;
  (** [sys.getsizeof(value)] *)
  py_getsizeof : value → Z;
  (** [json.dumps(value)] and [json.dumps(value, default=str)]: only whether
      they raise matters *)
  py_json_dumps : value → outcome unit;
  py_json_dumps_default_str : value → outcome unit;
  (** [value.isoformat()] when the value is a [datetime] or a [date] *)
  py_isoformat : value → option string;
  (** what [_serialize_numpy_array] or [_serialize_pandas_object] gives when
      the value is a NumPy array or a pandas object and the library is
      installed *)
  py_foreign : value → option (outcome (Dict.t value));
  (** [traceback.format_exc()] while the exception is being handled *)
  py_format_exc : exception → string
}.

(** ** output_handler.py *)

Module OutputHandler.

Definition max_plots : nat := 20.

(** One round of [_capture_current_plots] for a figure that converted. *)
Definition capture_plot (plots : list (Dict.t value)) (plot_data : Dict.t value)
    : list (Dict.t value) :=
  let plots := plots ++ [plot_data] in
  if bool_decide (max_plots < length plots) then tail plots else plots.

(** [text[:n] + '...' if len(text) > n else text]. *)
Definition shorten (n : nat) (text : string) : string :=
  if bool_decide (n < String.length text)
  then Text.slice_to n text +:+ "..."
  else text.

Definition key_error (key : string) : exception :=
  {| exc_type := KeyError; exc_message := "'" +:+ key +:+ "'" |}.

(** [description[key]]. *)
Definition subscript (description : Dict.t value) (key : string)
    : outcome value :=
  match Dict.get key description with
  | Some v => Return v
  | None => Raise (key_error key)
  end.

Section WithPython.
Context `{Python}.

(** The last branch of [_serialize_value], for a value of no type the
    earlier branches know. *)
Definition serialize_other (v : value) : outcome (Dict.t value) :=
  match py_json_dumps v with
  | Return _ =>
      Return [("type", VStr (py_type_name v));
              ("module", VStr (py_type_module v));
              ("value", v);
              ("size", VInt (py_getsizeof v))]
  | Raise e =>
      if catches TypeError e || catches ValueError e then
        str_repr ← py_str v;
        Return [("type", VStr (py_type_name v));
                ("module", VStr (py_type_module v));
                ("repr", VStr (shorten 500 str_repr));
                ("size", VInt (py_getsizeof v));
                ("serializable", VBool false)]
      else Raise e
  end.

(** The branches after the collections: NumPy and pandas, dates, others. *)
Definition serialize_object (v : value) : outcome (Dict.t value) :=
  match py_foreign v with
  | Some r => r
  | None =>
      match py_isoformat v with
      | Some iso =>
          Return [("type", VStr (py_type_name v));
                  ("value", VStr iso);
                  ("size", VInt (py_getsizeof v))]
      | None => serialize_other v
      end
  end.

(** [_serialize_value]; the [name] argument only labels recursive calls
    and is left out.  [each l limit] is the comprehension over the first
    [limit] entries of [l] ([value[:10]] for a preview, all of them
    otherwise). *)
Fixpoint _serialize_value (v : value) : outcome (Dict.t value) :=
  let basic :=
    Return [("type", VStr (py_type_name v));
            ("value", v);
            ("size", VInt (py_getsizeof v))] in
  let sequence (items : list value) :=
    let each :=
      fix each (l : list value) (limit : nat) : outcome (list value) :=
        match l, limit with
        | item :: rest, S limit =>
            d ← _serialize_value item;
            x ← subscript d "value";
            xs ← each rest limit;
            Return (x :: xs)
        | _, _ => Return []
        end in
    if bool_decide (100 < length items) then
      preview ← each items 10;
      Return [("type", VStr (py_type_name v));
              ("length", VInt (Z.of_nat (length items)));
              ("preview", VList preview);
              ("truncated", VBool true);
              ("size", VInt (py_getsizeof v))]
    else
      values ← each items (length items);
      Return [("type", VStr (py_type_name v));
              ("value", VList values);
              ("size", VInt (py_getsizeof v))] in
  match v with
  | VNone | VBool _ | VInt _ | VFloat _ | VStr _ => basic
  | VList items => sequence items
  | VTuple items => sequence items
  | VDict items =>
      let each :=
        fix each (l : list (string * value)) (limit : nat)
            : outcome (list (string * value)) :=
          match l, limit with
          | (k, item) :: rest, S limit =>
              d ← _serialize_value item;
              x ← subscript d "value";
              xs ← each rest limit;
              Return ((k, x) :: xs)
          | _, _ => Return []
          end in
      if bool_decide (50 < length items) then
        preview ← each items 10;
        Return [("type", VStr (py_type_name v));
                ("length", VInt (Z.of_nat (length items)));
                ("preview", VDict preview);
                ("keys", VList (map VStr (take 20 (Dict.keys items))));
                ("truncated", VBool true);
                ("size", VInt (py_getsizeof v))]
      else
        values ← each items (length items);
        Return [("type", VStr (py_type_name v));
                ("value", VDict values);
                ("size", VInt (py_getsizeof v))]
  | VModule _ | VBuiltin _ | VObject _ => serialize_object v
  end.

(** The [except Exception as e] clause of [serialize_variables]: the entry
    stored when [_serialize_value] raised [e]. *)
Definition error_info (v : value) (e : exception) : outcome (Dict.t value) :=
  text ← py_str v;
  Return [("type", VStr (py_type_name v));
          ("error", VStr ("Serialization failed: " +:+ exc_message e));
          ("repr", VStr (shorten 200 text))].

(** The loop of [serialize_variables] over the items still to visit. *)
Fixpoint serialize_items (items : list (string * value))
    (serialized : Dict.t (Dict.t value)) : outcome (Dict.t (Dict.t value)) :=
  match items with
  | [] => Return serialized
  | (name, v) :: rest =>
      match _serialize_value v with
      | Return d => serialize_items rest (Dict.set name d serialized)
      | Raise e =>
          if catches Exception e then
            d ← error_info v e;
            serialize_items rest (Dict.set name d serialized)
          else Raise e
      end
  end.

Definition serialize_variables (variables : Dict.t value)
    : outcome (Dict.t (Dict.t value)) :=
  serialize_items variables Dict.empty.

End WithPython.

End OutputHandler.

(** ** Process-wide state and the runtime object

    [sys.stdout], [sys.stderr], the pending alarm and [sys.meta_path] belong
    to the process; the session bindings, the execution flags and the
    captured plots belong to the one [SandboxRuntime].  Objects that are
    compared by identity (streams, import hooks) carry the identifier they
    were allocated with. *)

Inductive stream : Type :=
  | Console (fd : nat)
  | StringIO (oid : nat).

Inductive finder : Type :=
  | ImportHook (oid : nat)
  | SystemFinder (name : string).

#[global] Instance stream_eq_dec : EqDecision stream.
Proof. solve_decision. Defined.

#[global] Instance finder_eq_dec : EqDecision finder.
Proof. solve_decision. Defined.

Record state : Type := {
  sys_stdout : stream;
  sys_stderr : stream;
  stringio : gmap nat string;
  alarm : nat;
  meta_path : list finder;
  next_oid : nat;
  session_vars : Dict.t value;
  is_executing : bool;
  start_time : option Z;
  plots : list (Dict.t value)
}.

Definition set_sys_stdout (out : stream) (s : state) : state :=
  {| sys_stdout := out; sys_stderr := sys_stderr s; stringio := stringio s;
     alarm := alarm s; meta_path := meta_path s; next_oid := next_oid s;
     session_vars := session_vars s; is_executing := is_executing s;
     start_time := start_time s; plots := plots s |}.

Definition set_sys_stderr (err : stream) (s : state) : state :=
  {| sys_stdout := sys_stdout s; sys_stderr := err; stringio := stringio s;
     alarm := alarm s; meta_path := meta_path s; next_oid := next_oid s;
     session_vars := session_vars s; is_executing := is_executing s;
     start_time := start_time s; plots := plots s |}.

Definition set_stringio (h : gmap nat string) (s : state) : state :=
  {| sys_stdout := sys_stdout s; sys_stderr := sys_stderr s; stringio := h;
     alarm := alarm s; meta_path := meta_path s; next_oid := next_oid s;
     session_vars := session_vars s; is_executing := is_executing s;
     start_time := start_time s; plots := plots s |}.

Definition set_alarm (seconds : nat) (s : state) : state :=
  {| sys_stdout := sys_stdout s; sys_stderr := sys_stderr s;
     stringio := stringio s; alarm := seconds; meta_path := meta_path s;
     next_oid := next_oid s; session_vars := session_vars s;
     is_executing := is_executing s; start_time := start_time s;
     plots := plots s |}.

Definition set_meta_path (chain : list finder) (s : state) : state :=
  {| sys_stdout := sys_stdout s; sys_stderr := sys_stderr s;
     stringio := stringio s; alarm := alarm s; meta_path := chain;
     next_oid := next_oid s; session_vars := session_vars s;
     is_executing := is_executing s; start_time := start_time s;
     plots := plots s |}.

Definition set_next_oid (n : nat) (s : state) : state :=
  {| sys_stdout := sys_stdout s; sys_stderr := sys_stderr s;
     stringio := stringio s; alarm := alarm s; meta_path := meta_path s;
     next_oid := n; session_vars := session_vars s;
     is_executing := is_executing s; start_time := start_time s;
     plots := plots s |}.

Definition set_session_vars (d : Dict.t value) (s : state) : state :=
  {| sys_stdout := sys_stdout s; sys_stderr := sys_stderr s;
     stringio := stringio s; alarm := alarm s; meta_path := meta_path s;
     next_oid := next_oid s; session_vars := d;
     is_executing := is_executing s; start_time := start_time s;
     plots := plots s |}.

Definition set_is_executing (b : bool) (s : state) : state :=
  {| sys_stdout := sys_stdout s; sys_stderr := sys_stderr s;
     stringio := stringio s; alarm := alarm s; meta_path := meta_path s;
     next_oid := next_oid s; session_vars := session_vars s;
     is_executing := b; start_time := start_time s; plots := plots s |}.

Definition set_start_time (t : option Z) (s : state) : state :=
  {| sys_stdout := sys_stdout s; sys_stderr := sys_stderr s;
     stringio := stringio s; alarm := alarm s; meta_path := meta_path s;
     next_oid := next_oid s; session_vars := session_vars s;
     is_executing := is_executing s; start_time := t; plots := plots s |}.

Definition set_plots (p : list (Dict.t value)) (s : state) : state :=
  {| sys_stdout := sys_stdout s; sys_stderr := sys_stderr s;
     stringio := stringio s; alarm := alarm s; meta_path := meta_path s;
     next_oid := next_oid s; session_vars := session_vars s;
     is_executing := is_executing s; start_time := start_time s; plots := p |}.

(** A statement or call: it changes the state and returns or raises. *)
Definition M (A : Type) : Type := state → state * outcome A.

#[global] Instance M_ret : MRet M := fun A a s => (s, Return a).
#[global] Instance M_bind : MBind M := fun A B f m s =>
  match m s with
  | (s', Return a) => f a s'
  | (s', Raise e) => (s', Raise e)
  end.

Definition lift {A : Type} (r : outcome A) : M A := fun s => (s, r).
Definition gets {A : Type} (f : state → A) : M A := fun s => (s, Return (f s)).
Definition modify (f : state → state) : M unit := fun s => (f s, Return tt).

(** [StringIO()]: a fresh, empty buffer. *)
Definition new_StringIO : M nat := fun s =>
  let oid := next_oid s in
  (set_next_oid (oid + 1) (set_stringio (<[oid := ""]> (stringio s)) s),
   Return oid).

(** [buffer.getvalue()]. *)
Definition getvalue (oid : nat) : M string :=
  gets (fun s => default "" (stringio s !! oid)).

(** [target.write(text)]; what reaches a console is not kept. *)
Definition write (target : stream) (text : string) : M unit :=
  match target with
  | StringIO oid =>
      modify (fun s =>
        set_stringio (alter (fun old => old +:+ text) oid (stringio s)) s)
  | Console _ => mret tt
  end.

(** ** import_hook.py: installing and removing the hook *)

(** [ImportHook()]: a new object every time. *)
Definition new_ImportHook : M finder := fun s =>
  (set_next_oid (next_oid s + 1) s, Return (ImportHook (next_oid s))).

(** [chain.remove(x)], once [x in chain] is known. *)
Fixpoint list_remove (x : finder) (chain : list finder) : list finder :=
  match chain with
  | [] => []
  | y :: rest => if bool_decide (x = y) then rest else y :: list_remove x rest
  end.

(** [patch_import_system]; its [environment] argument is not used after it
    has been defaulted. *)
Definition patch_import_system (environment : option SandboxEnvironment)
    : M finder :=
  hook ← new_ImportHook;
  chain ← gets meta_path;
  _ ← (if bool_decide (hook ∉ chain)
       then modify (set_meta_path (hook :: chain))
       else mret tt);
  mret hook.

Definition unpatch_import_system (hook : finder) : M unit :=
  chain ← gets meta_path;
  if bool_decide (hook ∈ chain)
  then modify (set_meta_path (list_remove hook chain))
  else mret tt.

(** How many times a finder is registered in a chain. *)
Definition registrations (x : finder) (chain : list finder) : nat :=
  length (filter (fun y => x = y) chain).

(** How many import hooks a chain holds. *)
Definition is_import_hook (x : finder) : bool :=
  match x with ImportHook _ => true | SystemFinder _ => false end.

Definition hooks_in (chain : list finder) : nat :=
  length (List.filter is_import_hook chain).

(** ** runtime.py *)

Definition max_memory : Z := 512 * 1024 * 1024.
Definition max_cpu_time : nat := 30.

(** What [execution_context] yields. *)
Record context : Type := {
  ctx_stdout : nat;
  ctx_stderr : nat;
  ctx_environment : SandboxEnvironment
}.

(** [try: body finally: cleanup]. *)
Definition try_finally {A : Type} (body : M A) (cleanup : M unit) : M A :=
  fun s =>
    let '(s', r) := body s in
    match cleanup s' with
    | (s'', Return _) => (s'', r)
    | (s'', Raise e) => (s'', Raise e)
    end.

(** [execution_context] as a [with] block around [body]: the part before
    [yield], the body, and the [finally] clause, which runs however the body
    ends.  [now] is what [time.time()] reads on entry. *)
Definition execution_context {A : Type} (env : SandboxEnvironment)
    (timeout : option nat) (now : Z) (body : context → M A) : M A :=
  let timeout := default max_cpu_time timeout in
  _ ← modify (set_is_executing true);
  _ ← modify (set_start_time (Some now));
  _ ← modify (set_alarm timeout);
  old_stdout ← gets sys_stdout;
  old_stderr ← gets sys_stderr;
  stdout_buffer ← new_StringIO;
  stderr_buffer ← new_StringIO;
  _ ← modify (set_sys_stdout (StringIO stdout_buffer));
  _ ← modify (set_sys_stderr (StringIO stderr_buffer));
  try_finally
    (body {| ctx_stdout := stdout_buffer;
             ctx_stderr := stderr_buffer;
             ctx_environment := env |})
    (_ ← modify (set_sys_stdout old_stdout);
     _ ← modify (set_sys_stderr old_stderr);
     _ ← modify (set_alarm 0);
     modify (set_is_executing false)).

(** [try: body except ...: ...]: [handler e] is the clause that matches [e],
    if one does. *)
Definition try_except {A : Type} (body : M A)
    (handler : exception → option (M A)) : M A := fun s =>
  match body s with
  | (s', Return a) => (s', Return a)
  | (s', Raise e) =>
      match handler e with
      | Some clause => clause s'
      | None => (s', Raise e)
      end
  end.

(** The [error] entry of a result. *)
Record error_descriptor : Type := {
  err_type : string;
  err_message : string;
  err_traceback : string
}.

(** The dictionary [execute_code] returns.  The two resource figures are
    keys of the dictionary built inside the [with] block only, so they are
    optional here. *)
Record result : Type := {
  res_success : bool;
  res_stdout : string;
  res_stderr : string;
  res_variables : Dict.t (Dict.t value);
  res_plots : list (Dict.t value);
  res_error : option error_descriptor;
  res_execution_time : option Z;
  res_memory_usage : option Z
}.

(** Where, after [exec] is over and before the [with] block is left, a
    signal may still be delivered. *)
Inductive body_point : Type :=
  | AfterExec
  | AfterSessionUpdate.

#[global] Instance body_point_eq_dec : EqDecision body_point.
Proof. solve_decision. Defined.

(** What the operating system contributes to one call: the two readings of
    [time.time()] (in a fixed unit), [ru_maxrss] when [getrusage] answers,
    and a signal delivered after the executed code is over. *)
Record call_events : Type := {
  clock_enter : Z;
  clock_leave : Z;
  ru_maxrss : option Z;
  late_signal : option (body_point * signal)
}.

Definition skip_vars : list string :=
  ["__builtins__"; "__name__"; "__doc__"; "__package__";
   "__loader__"; "__spec__"; "__annotations__"; "__file__"].

(** [_get_memory_usage]: the bare [except] turns a failure into 0. *)
Definition _get_memory_usage (ev : call_events) : Z :=
  match ru_maxrss ev with
  | Some kb => kb * 1024
  | None => 0
  end.

(** The result built by the three outer [except] clauses. *)
Definition failure (err : error_descriptor) : result :=
  {| res_success := false;
     res_stdout := "";
     res_stderr := "";
     res_variables := [];
     res_plots := [];
     res_error := Some err;
     res_execution_time := None;
     res_memory_usage := None |}.

Definition timeout_result : result :=
  failure {| err_type := "TimeoutError";
             err_message := "Code execution timeout after "
                            +:+ pretty max_cpu_time +:+ " seconds";
             err_traceback := "" |}.

Definition memory_result : result :=
  failure {| err_type := "MemoryError";
             err_message := "Code execution exceeded memory limit of "
                            +:+ pretty max_memory +:+ " bytes";
             err_traceback := "" |}.

(** The exception a finished [exec] left behind, if any. *)
Definition raised (out : exec_outcome) : option exception :=
  match ex_end out with
  | Finished => None
  | Faulted e => Some e
  | Interrupted sig => Some (installed_handler sig)
  end.

(** A signal that is due at [point] runs its handler there; a delivered
    [SIGALRM] leaves no alarm pending. *)
Definition deliver (ev : call_events) (point : body_point) : M unit :=
  match late_signal ev with
  | Some (p, sig) =>
      if bool_decide (p = point) then
        _ ← (match sig with
             | SIGALRM => modify (set_alarm 0)
             | SIGTERM => mret tt
             end);
        lift (Raise (installed_handler sig))
      else mret tt
  | None => mret tt
  end.

Section WithPython.
Context `{Python}.

(** [get_safe_globals] (sandbox_env.py). *)
Definition get_safe_globals (env : SandboxEnvironment) : Dict.t value :=
  let builtins :=
    fold_left
      (fun acc name =>
         if py_has_builtin name then Dict.set name (VBuiltin name) acc
         else acc)
      (allowed_builtins env) Dict.empty in
  let safe_globals := [("__builtins__", VDict builtins)] in
  let safe_globals :=
    fold_left (fun acc kv => Dict.set kv.1 kv.2 acc)
              (preloaded_modules env) safe_globals in
  Dict.update safe_globals
    [("__name__", VStr "__sandbox__"); ("__doc__", VNone)].

(** The loop of [_extract_user_variables] over the items still to visit. *)
Fixpoint extract_items (items : list (string * value))
    (user_vars : Dict.t value) : outcome (Dict.t value) :=
  match items with
  | [] => Return user_vars
  | (name, v) :: rest =>
      if negb (Text.startswith "_" name)
         && negb (bool_decide (name ∈ skip_vars))
         && negb (py_callable v)
         && negb (py_has_module_attr v)
      then
        match py_json_dumps_default_str v with
        | Return _ => extract_items rest (Dict.set name v user_vars)
        | Raise e =>
            if catches TypeError e || catches ValueError e then
              text ← py_str v;
              extract_items rest (Dict.set name (VStr text) user_vars)
            else Raise e
        end
      else extract_items rest user_vars
  end.

Definition _extract_user_variables (execution_globals : Dict.t value)
    : outcome (Dict.t value) :=
  extract_items execution_globals Dict.empty.

(** [exec(code, execution_globals)] seen from the runtime: what the code
    printed goes to whatever [sys.stdout] and [sys.stderr] are, the plots
    it showed are captured, and a delivered [SIGALRM] leaves no alarm
    pending.  How the code ended is left in the outcome. *)
Definition run_exec (code : string) (execution_globals : Dict.t value)
    : M exec_outcome :=
  let out := py_exec code execution_globals in
  out_stream ← gets sys_stdout;
  _ ← write out_stream (ex_stdout out);
  err_stream ← gets sys_stderr;
  _ ← write err_stream (ex_stderr out);
  _ ← modify (fun s =>
        set_plots (fold_left OutputHandler.capture_plot (ex_plots out)
                             (plots s)) s);
  _ ← (match ex_end out with
       | Interrupted SIGALRM => modify (set_alarm 0)
       | _ => mret tt
       end);
  mret out.

(** The inner [try: exec(...) except Exception as e: ...]. *)
Definition inner_try (out : exec_outcome)
    : M (bool * option error_descriptor) :=
  match raised out with
  | None => mret (true, None)
  | Some e =>
      if catches Exception e then
        mret (false,
              Some {| err_type := class_name (exc_type e);
                      err_message := exc_message e;
                      err_traceback := py_format_exc e |})
      else lift (Raise e)
  end.

(** The body of the [with] block of [execute_code]. *)
Definition with_body (ev : call_events) (code : string)
    (execution_globals : Dict.t value) (ctx : context) : M result :=
  out ← run_exec code execution_globals;
  status ← inner_try out;
  _ ← deliver ev AfterExec;
  stdout_output ← getvalue (ctx_stdout ctx);
  stderr_output ← getvalue (ctx_stderr ctx);
  user_variables ← lift (_extract_user_variables (ex_globals out));
  _ ← modify (fun s =>
        set_session_vars (Dict.update (session_vars s) user_variables) s);
  _ ← deliver ev AfterSessionUpdate;
  captured ← gets plots;
  serialized ← lift (OutputHandler.serialize_variables user_variables);
  started ← gets start_time;
  elapsed ← lift (match started with
                  | Some t0 => Return (clock_leave ev - t0)%Z
                  | None =>
                      Raise {| exc_type := TypeError;
                               exc_message := "unsupported operand type(s) for -: 'float' and 'NoneType'" |}
                  end);
  mret {| res_success := status.1;
          res_stdout := stdout_output;
          res_stderr := stderr_output;
          res_variables := serialized;
          res_plots := captured;
          res_error := status.2;
          res_execution_time := Some elapsed;
          res_memory_usage := Some (_get_memory_usage ev) |}.

(** The three outer [except] clauses, first match first. *)
Definition outer_handler (e : exception) : option (M result) :=
  if catches TimeoutError e then Some (mret timeout_result)
  else if catches MemoryError e then Some (mret memory_result)
  else if catches Exception e then
    Some (mret (failure {| err_type := class_name (exc_type e);
                           err_message := exc_message e;
                           err_traceback := py_format_exc e |}))
  else None.

(** [if variables: self.session_vars.update(variables)]. *)
Definition load_variables (variables : option (Dict.t value)) : M unit :=
  match variables with
  | Some vars =>
      if Dict.truthy vars
      then modify (fun s =>
             set_session_vars (Dict.update (session_vars s) vars) s)
      else mret tt
  | None => mret tt
  end.

(** [SandboxRuntime.execute_code]; [session_id] is accepted and not used. *)
Definition execute_code (env : SandboxEnvironment) (ev : call_events)
    (code : string) (session_id : option string)
    (variables : option (Dict.t value)) : M result :=
  try_except
    (_ ← load_variables variables;
     session ← gets session_vars;
     let execution_globals := Dict.update (get_safe_globals env) session in
     execution_context env None (clock_enter ev)
       (with_body ev code execution_globals))
    outer_handler.

End WithPython.

(** ** A small interpreter and a few starting states, for evaluation

    [interpreter during] answers the interface on the inputs the examples
    below use.  [VObject 0] is an instance of a class whose [__str__] raises;
    any other [VObject] is an ordinary instance.  The host has no NumPy and
    no pandas, and [sys.getsizeof] is not modelled (it answers 0).  [during] is the signal that reaches the process while the
    long-running program runs ([None]: only the armed alarm does). *)

Module Example.

Definition newline : string := String (ascii_of_nat 10) "".

Definition quoted (s : string) : string := "'" +:+ s +:+ "'".

Definition broken_str : exception :=
  {| exc_type := RuntimeError; exc_message := "broken __str__" |}.

(** [repr(value)] of well-behaved values; [None] where it raises. *)
Fixpoint repr (v : value) : option string :=
  let commas :=
    fix commas (l : list value) : option string :=
      match l with
      | [] => Some ""
      | [x] => repr x
      | x :: rest =>
          a ← repr x; b ← commas rest; Some (a +:+ ", " +:+ b)
      end in
  let entries :=
    fix entries (l : list (string * value)) : option string :=
      match l with
      | [] => Some ""
      | [(k, x)] => a ← repr x; Some (quoted k +:+ ": " +:+ a)
      | (k, x) :: rest =>
          a ← repr x; b ← entries rest;
          Some (quoted k +:+ ": " +:+ a +:+ ", " +:+ b)
      end in
  match v with
  | VNone => Some "None"
  | VBool true => Some "True"
  | VBool false => Some "False"
  | VInt z => Some (pretty z)
  | VFloat _ => Some "0.0"
  | VStr s => Some (quoted s)
  | VList items => a ← commas items; Some ("[" +:+ a +:+ "]")
  | VTuple items => a ← commas items; Some ("(" +:+ a +:+ ")")
  | VDict items => a ← entries items; Some ("{" +:+ a +:+ "}")
  | VModule name => Some ("<module " +:+ quoted name +:+ ">")
  | VBuiltin name => Some ("<built-in function " +:+ name +:+ ">")
  | VObject 0 => None
  | VObject _ => Some "<Record object>"
  end.

Definition str (v : value) : outcome string :=
  match v with
  | VStr s => Return s
  | _ => match repr v with
         | Some text => Return text
         | None => Raise broken_str
         end
  end.

Definition type_name (v : value) : string :=
  match v with
  | VNone => "NoneType"
  | VBool _ => "bool"
  | VInt _ => "int"
  | VFloat _ => "float"
  | VStr _ => "str"
  | VList _ => "list"
  | VTuple _ => "tuple"
  | VDict _ => "dict"
  | VModule _ => "module"
  | VBuiltin _ => "builtin_function_or_method"
  | VObject 0 => "Broken"
  | VObject _ => "Record"
  end.

Definition type_module (v : value) : string :=
  match v with
  | VObject _ => "__sandbox__"
  | _ => "builtins"
  end.

(** Whether [json.dumps] can encode the value without a [default]. *)
Fixpoint encodable (v : value) : bool :=
  match v with
  | VNone | VBool _ | VInt _ | VFloat _ | VStr _ => true
  | VList items | VTuple items => forallb encodable items
  | VDict items =>
      (fix all (l : list (string * value)) : bool :=
         match l with
         | [] => true
         | (_, x) :: rest => encodable x && all rest
         end) items
  | VModule _ | VBuiltin _ | VObject _ => false
  end.

Definition not_serializable (v : value) : exception :=
  {| exc_type := TypeError;
     exc_message := "Object of type " +:+ type_name v
                    +:+ " is not JSON serializable" |}.

Definition json_dumps (v : value) : outcome unit :=
  if encodable v then Return tt else Raise (not_serializable v).

(** With [default=str] a value that does not encode is replaced by its
    [str], so only a raising [str] makes the call raise. *)
Definition json_dumps_default_str (v : value) : outcome unit :=
  if encodable v then Return tt
  else match repr v with
       | Some _ => Return tt
       | None => Raise broken_str
       end.

Definition zero_division : exception :=
  {| exc_type := ZeroDivisionError; exc_message := "division by zero" |}.

Definition ran (text : string) (globals : Dict.t value) (fin : exec_end)
    : exec_outcome :=
  {| ex_stdout := text; ex_stderr := ""; ex_globals := globals;
     ex_plots := []; ex_end := fin |}.

(** The programs the examples run. *)
Definition exec (during : option signal) (code : string)
    (globals : Dict.t value) : exec_outcome :=
  if String.eqb code "x = 1/0" then
    ran "" globals (Faulted zero_division)
  else if String.eqb code "y = 42" then
    ran "" (Dict.set "y" (VInt 42) globals) Finished
  else if String.eqb code "y = 42; x = 1/0" then
    ran "" (Dict.set "y" (VInt 42) globals) (Faulted zero_division)
  else if String.eqb code "print('working')" then
    ran ("working" +:+ newline) globals Finished
  else if String.eqb code "print('working'); x = sum(range(10**12))" then
    ran ("working" +:+ newline) globals
        (Interrupted (default SIGALRM during))
  else if String.eqb code "raise Exception.__base__('stop')" then
    ran "" globals
        (Faulted {| exc_type := BaseException; exc_message := "stop" |})
  else ran "" globals Finished.

Definition interpreter (during : option signal) : Python :=
  {| py_exec := exec during;
     py_has_builtin := fun _ => true;
     py_callable := fun v => match v with VBuiltin _ => true | _ => false end;
     py_has_module_attr := fun v =>
       match v with VBuiltin _ | VObject _ => true | _ => false end;
     py_str := str;
     py_type_name := type_name;
     py_type_module := type_module;
     py_getsizeof := fun _ => 0%Z;
     py_json_dumps := json_dumps;
     py_json_dumps_default_str := json_dumps_default_str;
     py_isoformat := fun _ => None;
     py_foreign := fun _ => None;
     py_format_exc := fun e =>
       "Traceback (most recent call last): "
       +:+ class_name (exc_type e) +:+ ": " +:+ exc_message e |}.

(** A process that has just started, with an empty session. *)
Definition idle : state :=
  {| sys_stdout := Console 1;
     sys_stderr := Console 2;
     stringio := ∅;
     alarm := 0;
     meta_path := [SystemFinder "BuiltinImporter";
                   SystemFinder "FrozenImporter";
                   SystemFinder "PathFinder"];
     next_oid := 0;
     session_vars := [];
     is_executing := false;
     start_time := None;
     plots := [] |}.

(** No signal after the code, ten clock ticks spent. *)
Definition quiet : call_events :=
  {| clock_enter := 100%Z; clock_leave := 110%Z; ru_maxrss := Some 2048%Z;
     late_signal := None |}.

(** The alarm goes off after the code is over, before the [with] block is
    left. *)
Definition late_alarm : call_events :=
  {| clock_enter := 100%Z; clock_leave := 130%Z; ru_maxrss := Some 2048%Z;
     late_signal := Some (AfterExec, SIGALRM) |}.

(** An environment that allows package [a] and blocks its subpackage
    [a.b]. *)
Definition nested_policy : SandboxEnvironment :=
  {| allowed_modules := {[ "a" := ["*"] ]};
     blocked_modules := {[ "a.b" ]};
     allowed_builtins := default_allowed_builtins;
     preloaded_modules := [] |}.

End Example.

(** ** Well-formed dictionaries

    A Python dictionary binds a key once. *)
Definition dict_wf {V : Type} (d : Dict.t V) : Prop := NoDup (Dict.keys d).

(** A statement that leaves the session bindings alone. *)
Definition keeps_session {A : Type} (m : M A) : Prop :=
  ∀ s, session_vars (m s).1 = session_vars s.

(** A statement after which the session bindings are as before or are
    updated with the variables that an extraction handed back. *)
Definition updates_session {A : Type} (extracted : outcome (Dict.t value))
    (m : M A) : Prop :=
  ∀ s,
    session_vars (m s).1 = session_vars s
    ∨ ∃ user_vars,
        extracted = Return user_vars
        ∧ session_vars (m s).1 = Dict.update (session_vars s) user_vars.

(** ** Data that [_serialize_value] describes in full

    Values built from [None], booleans, numbers and text with lists and
    tuples of at most 100 entries and dictionaries of at most 50. *)
Fixpoint plain (v : value) : bool :=
  match v with
  | VNone | VBool _ | VInt _ | VFloat _ | VStr _ => true
  | VList items | VTuple items =>
      bool_decide (length items ≤ 100)%nat && forallb plain items
  | VDict items =>
      bool_decide (length items ≤ 50)%nat
      && forallb (fun kv => match kv with (_, x) => plain x end) items
  | VModule _ | VBuiltin _ | VObject _ => false
  end.

(** The same data with every tuple turned into a list. *)
Fixpoint as_lists (v : value) : value :=
  match v with
  | VList items | VTuple items => VList (map as_lists items)
  | VDict items =>
      VDict (map (fun kv => match kv with (k, x) => (k, as_lists x) end) items)
  | _ => v
  end.

(** The two comprehensions of [_serialize_value] on their own: the [value]
    entries of the descriptions of the first [limit] items. *)
Fixpoint value_entries `{Python} (l : list value) (limit : nat)
    : outcome (list value) :=
  match l, limit with
  | item :: rest, S limit =>
      d ← OutputHandler._serialize_value item;
      x ← OutputHandler.subscript d "value";
      xs ← value_entries rest limit;
      Return (x :: xs)
  | _, _ => Return []
  end.

Fixpoint dict_entries `{Python} (l : list (string * value)) (limit : nat)
    : outcome (list (string * value)) :=
  match l, limit with
  | (k, item) :: rest, S limit =>
      d ← OutputHandler._serialize_value item;
      x ← OutputHandler.subscript d "value";
      xs ← dict_entries rest limit;
      Return ((k, x) :: xs)
  | _, _ => Return []
  end.

(** ** import_hook.py: the finder and its loader

    A loader is one of the system's or the wrapper that [find_spec] puts
    around it; the wrapper keeps the name of its spec, the environment of
    the hook that made it and the loader it wraps. *)
#[warnings="-register-all"]
Inductive loader : Type :=
  | SystemLoader (name : string)
  | SandboxModuleLoader (spec_name : string)
      (environment : SandboxEnvironment) (original_loader : option loader).

Record ModuleSpec : Type := {
  spec_name : string;
  spec_loader : option loader
}.

(** The fields of one [ImportHook] object. *)
Record hook_state : Type := {
  hook_environment : SandboxEnvironment;
  import_cache : Dict.t ModuleSpec;
  import_count : nat;
  max_imports : nat;
  attempted_imports : list string;
  blocked_imports : list string
}.

(** [ImportHook.__init__], on a host where [importable] tells which of the
    modules to preload import. *)
Definition ImportHook_init (importable : string → bool) : hook_state :=
  {| hook_environment := new_environment importable;
     import_cache := Dict.empty;
     import_count := 0;
     max_imports := 100;
     attempted_imports := [];
     blocked_imports := [] |}.

(** What importing touches: [sys.meta_path], the hook objects by identifier,
    and, for the record, the calls made to the [find_spec] of system
    finders (finder and module name, oldest first). *)
Record importing : Type := {
  chain : list finder;
  hooks : gmap nat hook_state;
  consulted : list (string * string)
}.

Definition set_hook (oid : nat) (h : hook_state) (w : importing) : importing :=
  {| chain := chain w; hooks := <[oid := h]> (hooks w);
     consulted := consulted w |}.

Definition consult (finder_name fullname : string) (w : importing)
    : importing :=
  {| chain := chain w; hooks := hooks w;
     consulted := consulted w ++ [(finder_name, fullname)] |}.

(** The finders the interpreter ships: whether one has a [find_spec], and
    what it answers. *)
Class Finders : Type := {
  sys_has_find_spec : string → bool;
  sys_find_spec :
    string → string → option (list string) → outcome (option ModuleSpec)
}.

Definition import_limit_exceeded (h : hook_state) : exception :=
  {| exc_type := ImportError;
     exc_message := "Import limit exceeded: " +:+ pretty (max_imports h) |}.

Definition import_not_allowed (fullname : string) : exception :=
  {| exc_type := ImportError;
     exc_message := "Import of '" +:+ fullname
                    +:+ "' is not allowed in sandbox environment" |}.

(** The first two statements of [find_spec]: count and log the attempt. *)
Definition count_attempt (fullname : string) (h : hook_state) : hook_state :=
  {| hook_environment := hook_environment h;
     import_cache := import_cache h;
     import_count := import_count h + 1;
     max_imports := max_imports h;
     attempted_imports := attempted_imports h ++ [fullname];
     blocked_imports := blocked_imports h |}.

Definition log_blocked (fullname : string) (h : hook_state) : hook_state :=
  {| hook_environment := hook_environment h;
     import_cache := import_cache h;
     import_count := import_count h;
     max_imports := max_imports h;
     attempted_imports := attempted_imports h;
     blocked_imports := blocked_imports h ++ [fullname] |}.

Definition cache_spec (fullname : string) (spec : ModuleSpec) (h : hook_state)
    : hook_state :=
  {| hook_environment := hook_environment h;
     import_cache := Dict.set fullname spec (import_cache h);
     import_count := import_count h;
     max_imports := max_imports h;
     attempted_imports := attempted_imports h;
     blocked_imports := blocked_imports h |}.

(** [if spec.loader is not None: spec.loader = SandboxModuleLoader(...)].
    A spec is a value here: the assignment shows in the spec that
    [find_spec] returns and caches, not in a copy of it that another hook
    has cached. *)
Definition wrap_loader (env : SandboxEnvironment) (spec : ModuleSpec)
    : ModuleSpec :=
  match spec_loader spec with
  | Some l =>
      {| spec_name := spec_name spec;
         spec_loader :=
           Some (SandboxModuleLoader (spec_name spec) env (Some l)) |}
  | None => spec
  end.

(** [ImportHook.find_spec].  One hook may call the [find_spec] of another
    hook on the chain, which may call back, so the definition counts the
    nested calls down from [fuel]; [None] says that the fuel ran out or
    that [self] is no hook object.  The [target] argument is handed on
    unchanged and left out. *)
Fixpoint find_spec `{Finders} (fuel : nat) (self : nat) (fullname : string)
    (path : option (list string)) (w : importing)
    : option (importing * outcome (option ModuleSpec)) :=
  match fuel with
  | 0 => None
  | S fuel =>
      match hooks w !! self with
      | None => None
      | Some h =>
          let h := count_attempt fullname h in
          let w := set_hook self h w in
          if bool_decide (max_imports h < import_count h)%nat then
            Some (w, Raise (import_limit_exceeded h))
          else if negb (is_module_allowed (hook_environment h) fullname) then
            Some (set_hook self (log_blocked fullname h) w,
                  Raise (import_not_allowed fullname))
          else
            match Dict.get fullname (import_cache h) with
            | Some spec => Some (w, Return (Some spec))
            | None =>
                let search :=
                  fix search (finders : list finder) (w : importing)
                      : option (importing * outcome (option ModuleSpec)) :=
                    match finders with
                    | [] => Some (w, Return None)
                    | ImportHook oid :: rest =>
                        if bool_decide (oid = self) then search rest w
                        else
                          match find_spec fuel oid fullname path w with
                          | Some (w, Return None) => search rest w
                          | answer => answer
                          end
                    | SystemFinder name :: rest =>
                        if sys_has_find_spec name then
                          let w := consult name fullname w in
                          match sys_find_spec name fullname path with
                          | Return None => search rest w
                          | answer => Some (w, answer)
                          end
                        else search rest w
                    end in
                match search (chain w) w with
                | Some (w, Return (Some spec)) =>
                    match hooks w !! self with
                    | Some h =>
                        let spec := wrap_loader (hook_environment h) spec in
                        Some (set_hook self (cache_spec fullname spec h) w,
                              Return (Some spec))
                    | None => None
                    end
                | answer => answer
                end
            end
      end
  end.

(** [find_module]: the loader of the spec, if there is a spec. *)
Definition find_module `{Finders} (fuel : nat) (self : nat) (fullname : string)
    (path : option (list string)) (w : importing)
    : option (importing * outcome (option loader)) :=
  match find_spec fuel self fullname path w with
  | Some (w, Return (Some spec)) => Some (w, Return (spec_loader spec))
  | Some (w, Return None) => Some (w, Return None)
  | Some (w, Raise e) => Some (w, Raise e)
  | None => None
  end.

(** [clear_cache] and [reset_counters]. *)
Definition clear_cache (h : hook_state) : hook_state :=
  {| hook_environment := hook_environment h;
     import_cache := Dict.empty;
     import_count := import_count h;
     max_imports := max_imports h;
     attempted_imports := attempted_imports h;
     blocked_imports := blocked_imports h |}.

Definition reset_counters (h : hook_state) : hook_state :=
  {| hook_environment := hook_environment h;
     import_cache := import_cache h;
     import_count := 0;
     max_imports := max_imports h;
     attempted_imports := [];
     blocked_imports := [] |}.

(** [get_import_stats]. *)
Record import_stats : Type := {
  total_attempts : nat;
  blocked_count : nat;
  allowed_count : Z;
  stats_attempted : list string;
  stats_blocked : list string;
  cached_modules : list string
}.

Definition get_import_stats (h : hook_state) : import_stats :=
  {| total_attempts := length (attempted_imports h);
     blocked_count := length (blocked_imports h);
     allowed_count := Z.of_nat (length (attempted_imports h))
                      - Z.of_nat (length (blocked_imports h));
     stats_attempted := attempted_imports h;
     stats_blocked := blocked_imports h;
     cached_modules := Dict.keys (import_cache h) |}.

(** The loop of [find_spec] over the finders of the chain on its own, with
    the [find_spec] of other hooks as [call]. *)
Fixpoint search_finders `{Finders}
    (call : nat → importing → option (importing * outcome (option ModuleSpec)))
    (self : nat) (fullname : string) (path : option (list string))
    (finders : list finder) (w : importing)
    : option (importing * outcome (option ModuleSpec)) :=
  match finders with
  | [] => Some (w, Return None)
  | ImportHook oid :: rest =>
      if bool_decide (oid = self)
      then search_finders call self fullname path rest w
      else
        match call oid w with
        | Some (w, Return None) =>
            search_finders call self fullname path rest w
        | answer => answer
        end
  | SystemFinder name :: rest =>
      if sys_has_find_spec name then
        let w := consult name fullname w in
        match sys_find_spec name fullname path with
        | Return None => search_finders call self fullname path rest w
        | answer => Some (w, answer)
        end
      else search_finders call self fullname path rest w
  end.

(** The counter of a hook agrees with its log, and what it logged as
    blocked it logged as attempted. *)
Definition hook_consistent (h : hook_state) : Prop :=
  import_count h = length (attempted_imports h)
  ∧ sublist (blocked_imports h) (attempted_imports h).

Definition hooks_consistent (w : importing) : Prop :=
  ∀ oid h, hooks w !! oid = Some h → hook_consistent h.

(** [self] is the only import hook among the finders. *)
Definition only_hook (self : nat) (finders : list finder) : Prop :=
  ∀ oid, ImportHook oid ∈ finders → oid = self.

(** The system finders among [finders] that have a [find_spec], each paired
    with the module name: the calls a full pass over [finders] makes. *)
Fixpoint calls_of `{Finders} (fullname : string) (finders : list finder)
    : list (string * string) :=
  match finders with
  | [] => []
  | SystemFinder name :: rest =>
      if sys_has_find_spec name
      then (name, fullname) :: calls_of fullname rest
      else calls_of fullname rest
  | ImportHook _ :: rest => calls_of fullname rest
  end.

(** Every system finder among [finders] that has a [find_spec] answers that
    it does not know the module. *)
Definition all_decline `{Finders} (fullname : string)
    (path : option (list string)) (finders : list finder) : Prop :=
  ∀ name, SystemFinder name ∈ finders → sys_has_find_spec name = true →
          sys_find_spec name fullname path = Return None.

(** Finders and a chain for evaluation: the built-in importer knows [math]
    and [sys], the path finder knows [json], [os] and [numpy.linalg]. *)
Module ExampleImport.

Definition answers (finder_name fullname : string) : bool :=
  (String.eqb finder_name "BuiltinImporter"
   && bool_decide (fullname ∈ ["math"; "sys"]))
  || (String.eqb finder_name "PathFinder"
      && bool_decide (fullname ∈ ["json"; "os"; "numpy.linalg"])).

Definition finders : Finders :=
  {| sys_has_find_spec := fun _ => true;
     sys_find_spec := fun finder_name fullname _ =>
       if answers finder_name fullname
       then Return (Some {| spec_name := fullname;
                            spec_loader := Some (SystemLoader finder_name) |})
       else Return None |}.

Definition system_chain : list finder :=
  [SystemFinder "BuiltinImporter"; SystemFinder "FrozenImporter";
   SystemFinder "PathFinder"].

(** One hook, just built, in front of the system finders. *)
Definition one_hook : importing :=
  {| chain := ImportHook 0 :: system_chain;
     hooks := {[ 0 := ImportHook_init (fun _ => true) ]};
     consulted := [] |}.

(** Two hooks, as two calls of [patch_import_system] leave them. *)
Definition two_hooks : importing :=
  {| chain := ImportHook 1 :: ImportHook 0 :: system_chain;
     hooks := {[ 0 := ImportHook_init (fun _ => true);
                 1 := ImportHook_init (fun _ => true) ]};
     consulted := [] |}.

(** A hook that has seen a hundred attempts. *)
Definition spent_hook : hook_state :=
  {| hook_environment := new_environment (fun _ => true);
     import_cache := Dict.empty;
     import_count := 100;
     max_imports := 100;
     attempted_imports := replicate 100 "math";
     blocked_imports := [] |}.

Definition spent : importing :=
  {| chain := ImportHook 0 :: system_chain;
     hooks := {[ 0 := spent_hook ]};
     consulted := [] |}.

End ExampleImport.

(** ** import_hook.py: loading through the wrapper

    Module objects live in a store, by identifier: [exec_module] changes the
    namespace of the object it is given, and [filter_module_attributes]
    hands back either that very object or a new one. *)
Definition namespace (m : nat) (store : gmap nat module) : Dict.t value :=
  match store !! m with
  | Some object => module_dict object
  | None => []
  end.

Definition set_namespace (m : nat) (d : Dict.t value)
    (store : gmap nat module) : gmap nat module :=
  alter (fun object => {| module_name_of := module_name_of object;
                          module_dict := d |}) m store.

(** The loaders the interpreter ships: whether one has an [exec_module],
    and what it does to the module it is given. *)
Class Loaders : Type := {
  sys_has_exec_module : string → bool;
  sys_exec_module : string → module → module * outcome unit
}.

Definition has_exec_module `{Loaders} (l : loader) : bool :=
  match l with
  | SystemLoader name => sys_has_exec_module name
  | SandboxModuleLoader _ _ _ => true
  end.

(** [filter_module_attributes] on objects: the store afterwards and the
    identifier of the object returned. *)
Definition filter_module_object (env : SandboxEnvironment)
    (store : gmap nat module) (m : nat) (module_name : string)
    : gmap nat module * nat :=
  match get_allowed_attributes env module_name, store !! m with
  | Some _, Some object =>
      let filtered_module := fresh (dom store) in
      (<[filtered_module := filter_module_attributes env object module_name]>
         store,
       filtered_module)
  | _, _ => (store, m)
  end.

(** [SandboxModuleLoader.exec_module]; on a loader of the system, what that
    loader does. *)
Fixpoint exec_module `{Loaders} (self : loader) (m : nat)
    (store : gmap nat module) : gmap nat module * outcome unit :=
  match self with
  | SystemLoader name =>
      match store !! m with
      | Some object =>
          let '(object, r) := sys_exec_module name object in
          (<[m := object]> store, r)
      | None => (store, Return tt)
      end
  | SandboxModuleLoader spec_name environment original_loader =>
      match original_loader with
      | Some original =>
          if has_exec_module original then
            match exec_module original m store with
            | (store, Return _) =>
                let '(store, filtered_module) :=
                  filter_module_object environment store m spec_name in
                let store := set_namespace m [] store in
                let store :=
                  set_namespace m
                    (Dict.update (namespace m store)
                       (namespace filtered_module store))
                    store in
                (store, Return tt)
            | (store, Raise e) => (store, Raise e)
            end
          else (store, Return tt)
      | None => (store, Return tt)
      end
  end.

(** A loader for evaluation: it binds [pi], [sqrt], [loads], [dumps] and
    [load] in the module it is given. *)
Module ExampleLoad.

Definition loaders : Loaders :=
  {| sys_has_exec_module := fun _ => true;
     sys_exec_module := fun _ object =>
       ({| module_name_of := module_name_of object;
           module_dict :=
             Dict.update (module_dict object)
               [("pi", VInt 3); ("sqrt", VBuiltin "sqrt");
                ("loads", VBuiltin "loads"); ("dumps", VBuiltin "dumps");
                ("load", VBuiltin "load")] |},
        Return tt) |}.

Definition store : gmap nat module := {[ 0 := ModuleType "m" ]}.

End ExampleLoad.

(** ** sandbox_env.py: [validate_code_safety]

    A text is read character by character, a character being a code point
    below 256. *)

(** [pattern in code]. *)
Fixpoint strip_prefix (p s : string) : option string :=
  match p, s with
  | EmptyString, _ => Some s
  | String c p, String d s => if Ascii.eqb c d then strip_prefix p s else None
  | String _ _, EmptyString => None
  end.

Fixpoint contains (pattern code : string) : bool :=
  match strip_prefix pattern code with
  | Some _ => true
  | None =>
      match code with
      | EmptyString => false
      | String _ rest => contains pattern rest
      end
  end.

(** The character classes of the import pattern: [\s], [[a-zA-Z_]] and
    [[a-zA-Z0-9_.]]. *)
Definition between (lo hi : N) (c : ascii) : bool :=
  (lo <=? N_of_ascii c)%N && (N_of_ascii c <=? hi)%N.

Definition is_space (c : ascii) : bool :=
  between 9 13 c || between 28 32 c || between 133 133 c
  || between 160 160 c.

Definition is_name_start (c : ascii) : bool :=
  between 97 122 c || between 65 90 c || between 95 95 c.

Definition is_name_char (c : ascii) : bool :=
  is_name_start c || between 48 57 c || between 46 46 c.

(** The longest prefix of characters of a class, and what follows it. *)
Fixpoint span (class : ascii → bool) (s : string) : string * string :=
  match s with
  | String c rest =>
      if class c
      then let '(taken, others) := span class rest in (String c taken, others)
      else (EmptyString, s)
  | EmptyString => (EmptyString, EmptyString)
  end.

(** A match of the import pattern at the start of a text: the keyword
    [import] or [from], one or more characters of [\s], then the group,
    which is one character of [[a-zA-Z_]] and as many of [[a-zA-Z0-9_.]] as
    follow.  The result is the group and the text after the match. *)
Definition match_import (s : string) : option (string * string) :=
  let keyword :=
    match strip_prefix "import" s with
    | Some rest => Some rest
    | None => strip_prefix "from" s
    end in
  match keyword with
  | Some rest =>
      match span is_space rest with
      | (String _ _, String c rest' as rest) =>
          if is_name_start c then Some (span is_name_char rest) else None
      | _ => None
      end
  | None => None
  end.

(** [re.findall]: the matches from left to right, each search starting
    where the match before ended.  [skip] counts the characters of the
    last match that are still to pass. *)
Fixpoint findall_from (skip : nat) (s : string) : list string :=
  match s with
  | EmptyString => []
  | String _ rest =>
      match skip with
      | S skip => findall_from skip rest
      | 0 =>
          match match_import s with
          | Some (name, after) =>
              name
              :: findall_from (String.length s - String.length after - 1)
                   rest
          | None => findall_from 0 rest
          end
      end
  end.

Definition findall_imports (code : string) : list string :=
  findall_from 0 code.

Record issue : Type := {
  issue_type : string;
  issue_pattern : string;
  issue_description : string
}.

Record validation : Type := {
  safe : bool;
  issues : list issue
}.

Definition dangerous_patterns : list (string * string) :=
  [("eval(", "Dynamic code evaluation");
   ("exec(", "Dynamic code execution");
   ("__import__(", "Dynamic imports");
   ("compile(", "Code compilation");
   ("open(", "File access");
   ("file(", "File access");
   ("subprocess", "Subprocess execution");
   ("os.system", "System commands");
   ("socket.", "Network access");
   ("urllib.", "Network access");
   ("requests.", "Network requests")].

Definition warning (pattern description : string) : issue :=
  {| issue_type := "warning";
     issue_pattern := pattern;
     issue_description := description |}.

Definition not_allowed (module_name : string) : issue :=
  {| issue_type := "error";
     issue_pattern := "import " +:+ module_name;
     issue_description := "Module " +:+ module_name +:+ " is not allowed" |}.

Definition validate_code_safety (env : SandboxEnvironment) (code : string)
    : validation :=
  let issues :=
    fold_left
      (fun issues entry =>
         match entry with
         | (pattern, description) =>
             if contains pattern code
             then issues ++ [warning pattern description]
             else issues
         end)
      dangerous_patterns [] in
  let imports := findall_imports code in
  let issues :=
    fold_left
      (fun issues module_name =>
         if negb (is_module_allowed env module_name)
         then issues ++ [not_allowed module_name]
         else issues)
      imports issues in
  {| safe :=
       Nat.eqb
         (length (List.filter
                    (fun i => String.eqb (issue_type i) "error") issues))
         0;
     issues := issues |}.

(** A text the name group of the pattern matches in full. *)
Definition is_module_name (s : string) : bool :=
  match s with
  | String c _ => is_name_start c && bool_decide (span is_name_char s = (s, ""))
  | EmptyString => false
  end.

(** What ends a name: the end of the text or a character outside the name
    class. *)
Definition ends_name (s : string) : bool :=
  match s with
  | String c _ => negb (is_name_char c)
  | EmptyString => true
  end.

(** ** import_hook.py: [SafeImporter] as a [with] block

    [__enter__] installs a hook, [__exit__] removes it however the body
    ends and lets an exception of the body pass. *)
Definition with_SafeImporter {A : Type} (importable : string → bool)
    (body : finder → M A) : M A :=
  let environment := new_environment importable in
  hook ← patch_import_system (Some environment);
  try_finally (body hook) (unpatch_import_system hook).

(** * Properties *)

(** ** The statements of the specification

    Each is a proposition about the embedded code, proved or refuted
    below. *)

(** Resolution walks the prefixes from the most specific to the least. *)
Definition most_specific_first (env : SandboxEnvironment) (name : string)
    : Prop :=
  is_blocked env name = false → is_listed env name = false →
  is_module_allowed env name = is_module_allowed_spec env name.

(** A name allowed through a prefix only is restricted like that prefix. *)
Definition inherits_prefix_restriction (env : SandboxEnvironment)
    (name : string) : Prop :=
  allowed_modules env !! name = None →
  is_module_allowed env name = true →
  get_allowed_attributes env name
  = inherited_attributes env (rev (dotted_prefixes name)).

(** The session bindings and the execution globals that [execute_code]
    starts the executed code with. *)
Definition session_on_entry `{Python} (variables : option (Dict.t value))
    (s : state) : Dict.t value :=
  session_vars (load_variables variables s).1.

Definition globals_on_entry `{Python} (env : SandboxEnvironment)
    (variables : option (Dict.t value)) (s : state) : Dict.t value :=
  Dict.update (get_safe_globals env) (session_on_entry variables s).

(** Every call yields a result; nothing propagates instead. *)
Definition always_yields_result `{Python} (env : SandboxEnvironment)
    (ev : call_events) (code : string) (session_id : option string)
    (variables : option (Dict.t value)) (s : state) : Prop :=
  ∃ res, (execute_code env ev code session_id variables s).2 = Return res.

(** When the executed code raises, the call reports the failure and the
    stored session bindings are what they were before the call. *)
Definition failure_keeps_session `{Python} (env : SandboxEnvironment)
    (ev : call_events) (code : string) (session_id : option string)
    (variables : option (Dict.t value)) (s : state) : Prop :=
  (∃ e, ex_end (py_exec code (globals_on_entry env variables s)) = Faulted e) →
  let r := execute_code env ev code session_id variables s in
  (∃ res, r.2 = Return res ∧ res_success res = false
          ∧ is_Some (res_error res))
  ∧ session_vars r.1 = session_vars s.

(** A result that reports a timeout carries what the code had written to
    the two streams. *)
Definition timeout_keeps_output `{Python} (env : SandboxEnvironment)
    (ev : call_events) (code : string) (session_id : option string)
    (variables : option (Dict.t value)) (s : state) : Prop :=
  let out := py_exec code (globals_on_entry env variables s) in
  ∀ res d,
    (execute_code env ev code session_id variables s).2 = Return res →
    res_error res = Some d → err_type d = "TimeoutError" →
    res_success res = false
    ∧ res_stdout res = ex_stdout out
    ∧ res_stderr res = ex_stderr out.

(** Installing the hook a second time is rejected: the chain holds one
    import hook afterwards. *)
Definition second_registration_rejected (s : state) : Prop :=
  let s1 := (patch_import_system None s).1 in
  let s2 := (patch_import_system None s1).1 in
  hooks_in (meta_path s2) = hooks_in (meta_path s1).

(** The serialized mapping has the keys of the input. *)
Definition keeps_every_name `{Python} (variables : Dict.t value) : Prop :=
  ∃ serialized,
    OutputHandler.serialize_variables variables = Return serialized
    ∧ ∀ name, name ∈ Dict.keys serialized ↔ name ∈ Dict.keys variables.

(** ** Side conditions used below *)

(** Every hook in the chain was allocated before: the next identifier is
    fresh. *)
Definition chain_allocated (s : state) : Prop :=
  ∀ oid, ImportHook oid ∈ meta_path s → oid < next_oid s.

(** What keeps the [except] clause of [serialize_variables] from failing in
    turn: whenever [_serialize_value] raises on a value, it raises an
    [Exception] and [str] of that value returns. *)
Definition handler_succeeds `{Python} (variables : Dict.t value) : Prop :=
  ∀ name v e,
    (name, v) ∈ variables →
    OutputHandler._serialize_value v = Raise e →
    catches Exception e = true ∧ ∃ text, py_str v = Return text.

(** What the two tables say about one name, the deny table first. *)
Definition verdict (env : SandboxEnvironment) (p : string) : option bool :=
  if is_blocked env p then Some false
  else if is_listed env p then Some true
  else None.

(** No entry of either table has a dotted prefix that the tables decide the
    other way. *)
Definition tables_consistent (env : SandboxEnvironment) : bool :=
  forallb
    (fun q =>
       forallb
         (fun p =>
            match verdict env p with
            | Some v => bool_decide (verdict env q = Some v)
            | None => true
            end)
         (dotted_prefixes q))
    (elements (blocked_modules env) ++ (map_to_list (allowed_modules env)).*1).

(** Whether a character occurs in a text. *)
Fixpoint has_char (c : ascii) (s : string) : bool :=
  match s with
  | EmptyString => false
  | String d rest => Ascii.eqb d c || has_char c rest
  end.

(** ** Tactics *)

(** Unfolding of the state-and-exception plumbing. *)
Ltac run_M :=
  unfold execution_context, try_finally, try_except, mbind, M_bind, mret,
    M_ret, modify, gets, lift, new_StringIO in *;
  simpl in *.
(** ** Text *)

Lemma append_cons (c : ascii) (a b : string) :
  String c a +:+ b = String c (a +:+ b).
Proof. reflexivity. Qed.

Lemma length_append (a b : string) :
  String.length (a +:+ b) = String.length a + String.length b.
Proof.
  induction a as [|c a IH]; [done |].
  rewrite append_cons. simpl. by rewrite IH.
Qed.

Lemma split_nonempty (sep : ascii) (s : string) : Text.split sep s ≠ [].
Proof.
  induction s as [|c s IH]; simpl; [done |].
  destruct (Ascii.eqb c sep); [done |].
  by destruct (Text.split sep s).
Qed.

Lemma append_assoc (a b c : string) : (a +:+ b) +:+ c = a +:+ b +:+ c.
Proof.
  induction a as [|x a IH]; [done |]. by rewrite !append_cons, IH.
Qed.

Lemma join_snoc (sep : string) (l : list string) (x : string) :
  l ≠ [] → Text.join sep (l ++ [x]) = Text.join sep l +:+ sep +:+ x.
Proof.
  induction l as [|a l IH]; [done |]. intros _.
  destruct l as [|b l]; [done |].
  change (Text.join sep ((a :: b :: l) ++ [x]))
    with (a +:+ sep +:+ Text.join sep ((b :: l) ++ [x])).
  rewrite IH by done.
  change (Text.join sep (a :: b :: l))
    with (a +:+ sep +:+ Text.join sep (b :: l)).
  by rewrite !append_assoc.
Qed.

Lemma join_cons (sep a b : string) (l : list string) :
  Text.join sep (a :: b :: l) = a +:+ sep +:+ Text.join sep (b :: l).
Proof. reflexivity. Qed.

(** [str.join] after [str.split] gives the text back, so the last dotted
    prefix of a name is the name. *)
Lemma join_split (c : ascii) (s : string) :
  Text.join (String c "") (Text.split c s) = s.
Proof.
  induction s as [|d s IH]; [done |].
  change (Text.split c (String d s))
    with (if Ascii.eqb d c then EmptyString :: Text.split c s
          else match Text.split c s with
               | [] => [String d EmptyString]
               | p :: ps => String d p :: ps
               end).
  destruct (Text.split c s) as [|p ps] eqn:E; [by apply split_nonempty in E |].
  destruct (Ascii.eqb_spec d c) as [->|Hne].
  - rewrite join_cons, IH. reflexivity.
  - destruct ps as [|q ps].
    + simpl in *. by rewrite IH.
    + rewrite join_cons in *. rewrite append_cons. by rewrite IH.
Qed.

(** Taking one more part appends a separator and that part, so the joined
    prefix gets strictly longer. *)
Lemma parent_module_S (parts : list string) (i : nat) (x : string) :
  parts !! S i = Some x →
  parent_module parts (S i) = parent_module parts i +:+ "." +:+ x.
Proof.
  intros Hx. unfold parent_module.
  replace (S i + 1) with (S (S i)) by lia.
  replace (i + 1) with (S i) by lia.
  rewrite (take_S_r parts (S i) x) by done.
  apply join_snoc. by destruct parts.
Qed.

Lemma parent_module_longer (parts : list string) (i j : nat) :
  i < j → j < length parts →
  String.length (parent_module parts i) < String.length (parent_module parts j).
Proof.
  intros Hij Hj. induction j as [|j IH]; [lia |].
  destruct (lookup_lt_is_Some_2 parts (S j) Hj) as [x Hx].
  rewrite (parent_module_S _ _ _ Hx), !length_append.
  change (String.length ".") with 1.
  destruct (decide (i = j)) as [->|Hne]; [lia |].
  assert (String.length (parent_module parts i)
          < String.length (parent_module parts j)) by (apply IH; lia).
  lia.
Qed.

(** ** sandbox_env.py: module resolution *)

Lemma check_parents_first_match (env : SandboxEnvironment)
    (parts : list string) (indices : list nat) :
  check_parents env parts indices
  = first_match env (map (parent_module parts) indices).
Proof.
  induction indices as [|i rest IH]; simpl; [done |]. by rewrite IH.
Qed.

(** [is_module_allowed] is: exact deny, exact allow, then the first dotted
    prefix found in either table, taken in the order of [dotted_prefixes]. *)
Lemma is_module_allowed_unfold (env : SandboxEnvironment) (name : string) :
  is_module_allowed env name
  = if is_blocked env name then false
    else if is_listed env name then true
    else first_match env (dotted_prefixes name).
Proof.
  unfold is_module_allowed, dotted_prefixes.
  by rewrite check_parents_first_match.
Qed.

Lemma first_match_unlisted (env : SandboxEnvironment) (l : list string) :
  (∀ p, p ∈ l → is_listed env p = false) → first_match env l = false.
Proof.
  induction l as [|p l IH]; intros Hl; simpl; [done |].
  destruct (is_blocked env p); [done |].
  rewrite (Hl p) by left. apply IH. intros q Hq. apply Hl. by right.
Qed.

Lemma first_match_decides (env : SandboxEnvironment)
    (before after : list string) (p : string) :
  (∀ q, q ∈ before → is_blocked env q = false ∧ is_listed env q = false) →
  is_blocked env p || is_listed env p = true →
  first_match env (before ++ p :: after) = negb (is_blocked env p).
Proof.
  intros Hbefore Hp. induction before as [|q before IH]; simpl.
  - destruct (is_blocked env p); [done |]. simpl in Hp. by rewrite Hp.
  - destruct (Hbefore q) as [-> ->]; [left |].
    apply IH. intros r Hr. apply Hbefore. by right.
Qed.

Lemma is_listed_false (env : SandboxEnvironment) (name : string) :
  allowed_modules env !! name = None → is_listed env name = false.
Proof.
  intros E. unfold is_listed. apply bool_decide_eq_false.
  rewrite E. by intros [? ?].
Qed.

(** The dotted prefixes come shortest first. *)
Lemma dotted_prefixes_ascending (name : string) (before after : list string)
    (p q : string) :
  dotted_prefixes name = before ++ p :: after → q ∈ before →
  String.length q < String.length p.
Proof.
  unfold dotted_prefixes. set (parts := Text.split "." name).
  intros E Hq.
  apply list_elem_of_lookup in Hq as [i Hi].
  assert (Hlen : length (before ++ p :: after) = length parts).
  { by rewrite <- E, length_map, length_seq. }
  rewrite length_app in Hlen. simpl in Hlen.
  pose proof (lookup_lt_Some _ _ _ Hi) as Hilt.
  assert (Hq : map (parent_module parts) (seq 0 (length parts)) !! i = Some q).
  { rewrite E. by rewrite lookup_app_l. }
  assert (Hp : map (parent_module parts) (seq 0 (length parts))
               !! length before = Some p).
  { rewrite E. by rewrite list_lookup_middle. }
  rewrite list_lookup_fmap in Hq, Hp.
  rewrite lookup_seq_lt in Hq by lia.
  rewrite lookup_seq_lt in Hp by lia.
  simpl in Hq, Hp. injection Hq as <-. injection Hp as <-.
  apply parent_module_longer; lia.
Qed.

(** The last dotted prefix is the whole name. *)
Lemma dotted_prefixes_last (name : string) :
  last (dotted_prefixes name) = Some name.
Proof.
  unfold dotted_prefixes. set (parts := Text.split "." name).
  assert (Hne : parts ≠ []) by apply split_nonempty.
  rewrite fmap_last.
  destruct (length parts) as [|n] eqn:En; [by destruct parts |].
  rewrite seq_S, last_snoc. simpl. unfold parent_module.
  rewrite firstn_all2 by lia. f_equal. apply join_split.
Qed.

(** C3.  A module name that is in the deny table is never allowed, whatever
    the allow table says about the name or about any of its prefixes. *)
Theorem blocked_module_never_allowed (env : SandboxEnvironment)
    (module_name : string) :
  module_name ∈ blocked_modules env →
  is_module_allowed env module_name = false.
Proof.
  intros Hin. unfold is_module_allowed, is_blocked.
  by rewrite bool_decide_eq_true_2.
Qed.

(** In [Example.nested_policy] the name [a.b] is denied although its prefix
    [a] is allowed. *)
Lemma blocked_module_never_allowed_witness :
  "a.b" ∈ blocked_modules Example.nested_policy
  ∧ is_listed Example.nested_policy "a" = true
  ∧ is_module_allowed Example.nested_policy "a.b" = false.
Proof.
  split; [vm_compute; reflexivity |].
  split; [reflexivity |].
  apply blocked_module_never_allowed. vm_compute. reflexivity.
Defined.

(** C9.  A module name with no entry in the allow table, neither of its own
    nor for any of its dotted prefixes, is not allowed. *)
Theorem unknown_module_denied (env : SandboxEnvironment)
    (module_name : string) :
  allowed_modules env !! module_name = None →
  (∀ p, p ∈ dotted_prefixes module_name → allowed_modules env !! p = None) →
  is_module_allowed env module_name = false.
Proof.
  intros Hexact Hprefixes. rewrite is_module_allowed_unfold.
  destruct (is_blocked env module_name); [done |].
  rewrite (is_listed_false _ _ Hexact).
  apply first_match_unlisted. intros p Hp.
  apply is_listed_false. by apply Hprefixes.
Qed.

Lemma unknown_module_denied_witness :
  is_module_allowed default_environment "requests.adapters" = false.
Proof.
  apply unknown_module_denied; [reflexivity |].
  intros p Hp.
  change (dotted_prefixes "requests.adapters")
    with ["requests"; "requests.adapters"] in Hp.
  apply elem_of_cons in Hp as [-> | Hp]; [reflexivity |].
  apply list_elem_of_singleton in Hp as ->. reflexivity.
Defined.

(** C2, as the code has it.  For a name with no entry of its own in either
    table, the dotted prefixes are tried from the least specific (shortest)
    to the most specific: the verdict is that of the first prefix found in
    the deny or the allow table, and every prefix tried before it is
    strictly shorter. *)
Theorem least_specific_prefix_decides (env : SandboxEnvironment)
    (module_name : string) (before after : list string) (p : string) :
  is_blocked env module_name = false →
  is_listed env module_name = false →
  dotted_prefixes module_name = before ++ p :: after →
  (∀ q, q ∈ before → is_blocked env q = false ∧ is_listed env q = false) →
  is_blocked env p || is_listed env p = true →
  is_module_allowed env module_name = negb (is_blocked env p)
  ∧ ∀ q, q ∈ before → String.length q < String.length p.
Proof.
  intros Hb Hl E Hbefore Hp. split.
  - rewrite is_module_allowed_unfold, Hb, Hl, E.
    by apply first_match_decides.
  - intros q Hq. by apply (dotted_prefixes_ascending module_name before after).
Qed.

(** [a.b.c] under [Example.nested_policy]: the shortest prefix [a] is
    allowed and decides, before the blocked [a.b] is looked at. *)
Lemma least_specific_prefix_decides_witness :
  is_module_allowed Example.nested_policy "a.b.c" = true
  ∧ ∀ q, q ∈ @nil string → String.length q < String.length "a".
Proof.
  apply (least_specific_prefix_decides Example.nested_policy "a.b.c"
           [] ["a.b"; "a.b.c"] "a");
    [reflexivity | reflexivity | reflexivity | | reflexivity].
  intros q Hq. by apply elem_of_nil in Hq.
Defined.

(** C2 as worded fails: under [Example.nested_policy] the name [a.b.c] has
    no entry of its own; walking from the most specific prefix meets the
    blocked [a.b] first and denies, the code meets the allowed [a] first and
    allows. *)
Lemma most_specific_first_counterexample :
  ¬ most_specific_first Example.nested_policy "a.b.c".
Proof.
  unfold most_specific_first. intros Hspec.
  specialize (Hspec eq_refl eq_refl). vm_compute in Hspec. discriminate.
Qed.

(** ** sandbox_env.py: attribute restriction *)

(** C4, as the code has it.  A name with no allow-table entry of its own has
    no attribute restriction, also when it is allowed through a prefix whose
    entry is restricted: [get_allowed_attributes] answers [None] and
    [filter_module_attributes] hands the module back unchanged. *)
Theorem prefix_allowed_module_unrestricted (env : SandboxEnvironment)
    (module_name : string) (m : module) :
  allowed_modules env !! module_name = None →
  get_allowed_attributes env module_name = None
  ∧ filter_module_attributes env m module_name = m.
Proof.
  intros E. unfold filter_module_attributes, get_allowed_attributes.
  by rewrite E.
Qed.

Lemma prefix_allowed_module_unrestricted_witness :
  is_module_allowed default_environment "json.decoder" = true
  ∧ get_allowed_attributes default_environment "json" = Some ["loads"; "dumps"]
  ∧ get_allowed_attributes default_environment "json.decoder" = None
  ∧ filter_module_attributes default_environment
      {| module_name_of := "json.decoder";
         module_dict := [("JSONDecoder", VBuiltin "JSONDecoder")] |}
      "json.decoder"
    = {| module_name_of := "json.decoder";
         module_dict := [("JSONDecoder", VBuiltin "JSONDecoder")] |}.
Proof.
  split; [reflexivity |]. split; [reflexivity |].
  apply prefix_allowed_module_unrestricted. reflexivity.
Defined.

(** C4 as worded fails on the shipped tables: [json.decoder] is allowed
    through [json], whose entry permits [loads] and [dumps] only, and yet
    it is unrestricted. *)
Lemma inherits_prefix_restriction_counterexample :
  ¬ inherits_prefix_restriction default_environment "json.decoder".
Proof.
  unfold inherits_prefix_restriction. intros Hspec.
  specialize (Hspec eq_refl eq_refl). vm_compute in Hspec. discriminate.
Qed.

(** ** The shipped tables: the order of the walk does not show

    The tables of [SandboxEnvironment.__init__] never decide a name and one
    of its dotted prefixes differently, so on them walking from the least
    specific prefix and walking from the most specific one give one
    verdict. *)

Lemma split_dotfree (c : ascii) (s x : string) :
  x ∈ Text.split c s → has_char c x = false.
Proof.
  revert x. induction s as [|d s IH]; intros x Hx.
  - apply list_elem_of_singleton in Hx as ->. reflexivity.
  - change (Text.split c (String d s))
      with (if Ascii.eqb d c then EmptyString :: Text.split c s
            else match Text.split c s with
                 | [] => [String d EmptyString]
                 | p :: ps => String d p :: ps
                 end) in Hx.
    destruct (Ascii.eqb d c) eqn:Edc.
    + apply elem_of_cons in Hx as [-> | Hx]; [reflexivity | by apply IH].
    + destruct (Text.split c s) as [|p ps] eqn:E;
        [by apply split_nonempty in E |].
      apply elem_of_cons in Hx as [-> | Hx].
      * simpl. rewrite Edc. apply IH. by left.
      * apply IH. by right.
Qed.

Lemma split_one (c : ascii) (x : string) :
  has_char c x = false → Text.split c x = [x].
Proof.
  induction x as [|d x IH]; [done |]. simpl. intros Hx.
  apply orb_false_iff in Hx as [-> Hx]. by rewrite IH.
Qed.

Lemma split_append_sep (c : ascii) (x rest : string) :
  has_char c x = false →
  Text.split c (x +:+ String c rest) = x :: Text.split c rest.
Proof.
  induction x as [|d x IH]; intros Hx.
  - change ("" +:+ String c rest) with (String c rest). simpl.
    by rewrite Ascii.eqb_refl.
  - simpl in Hx. apply orb_false_iff in Hx as [Hd Hx].
    rewrite append_cons. simpl. rewrite Hd. by rewrite IH.
Qed.

Lemma split_join (c : ascii) (l : list string) :
  l ≠ [] → (∀ x, x ∈ l → has_char c x = false) →
  Text.split c (Text.join (String c "") l) = l.
Proof.
  induction l as [|x l IH]; [done |]. intros _ Hl.
  destruct l as [|y l].
  - simpl. apply split_one. apply Hl. by left.
  - rewrite join_cons.
    change (String c "" +:+ Text.join (String c "") (y :: l))
      with (String c (Text.join (String c "") (y :: l))).
    rewrite split_append_sep by (apply Hl; by left).
    rewrite IH; [done | done |]. intros z Hz. apply Hl. by right.
Qed.

(** The dotted prefixes of a dotted prefix are the shorter dotted prefixes
    of the name. *)
Lemma dotted_prefixes_of_prefix (name : string) (j : nat) :
  let parts := Text.split "." name in
  j < length parts →
  dotted_prefixes (parent_module parts j)
  = map (parent_module parts) (seq 0 (j + 1)).
Proof.
  intros parts Hj. unfold dotted_prefixes.
  assert (Hsplit : Text.split "." (parent_module parts j) = take (j + 1) parts).
  { unfold parent_module. apply split_join.
    - destruct parts; [simpl in Hj; lia |].
      by replace (j + 1) with (S j) by lia.
    - intros x Hx. apply (split_dotfree _ name).
      apply elem_of_take in Hx as (i & Hi & _).
      by eapply list_elem_of_lookup_2. }
  rewrite Hsplit, length_take.
  replace ((j + 1) `min` length parts) with (j + 1) by lia.
  apply map_ext_in. intros i Hi. apply in_seq in Hi.
  unfold parent_module. rewrite take_take. f_equal. f_equal. lia.
Qed.

Lemma verdict_entry (env : SandboxEnvironment) (q : string) (v : bool) :
  verdict env q = Some v →
  q ∈ elements (blocked_modules env) ++ (map_to_list (allowed_modules env)).*1.
Proof.
  unfold verdict, is_blocked, is_listed. intros Hv.
  apply elem_of_app.
  destruct (bool_decide_reflect (q ∈ blocked_modules env)) as [Hb|_].
  - left. by apply elem_of_elements.
  - destruct (bool_decide_reflect (is_Some (allowed_modules env !! q)))
      as [[attrs Ha]|_]; [|done].
    right. apply list_elem_of_fmap. exists (q, attrs). split; [done |].
    by apply elem_of_map_to_list.
Qed.

(** On consistent tables all the dotted prefixes of a name that the tables
    know get one verdict. *)
Lemma consistent_prefixes_agree (env : SandboxEnvironment) (name : string)
    (p q : string) (v w : bool) :
  tables_consistent env = true →
  p ∈ dotted_prefixes name → q ∈ dotted_prefixes name →
  verdict env p = Some v → verdict env q = Some w → v = w.
Proof.
  intros Hcons Hp Hq Hv Hw.
  assert (Hmain : ∀ (i j : nat) (a b : string) (x y : bool),
            (i ≤ j)%nat → (j < length (Text.split "." name))%nat →
            a = parent_module (Text.split "." name) i →
            b = parent_module (Text.split "." name) j →
            verdict env a = Some x → verdict env b = Some y → x = y).
  { intros i j a b x y Hij Hj -> -> Hx Hy.
    unfold tables_consistent in Hcons.
    rewrite forallb_forall in Hcons.
    specialize (Hcons _ (proj1 (list_elem_of_In _ _) (verdict_entry _ _ _ Hy))).
    rewrite forallb_forall in Hcons.
    specialize (Hcons (parent_module (Text.split "." name) i)).
    rewrite Hx in Hcons.
    assert (Hin : In (parent_module (Text.split "." name) i)
                     (dotted_prefixes
                        (parent_module (Text.split "." name) j))).
    { rewrite dotted_prefixes_of_prefix by done.
      apply in_map, in_seq. lia. }
    specialize (Hcons Hin). apply bool_decide_eq_true in Hcons.
    congruence. }
  unfold dotted_prefixes in Hp, Hq.
  apply list_elem_of_fmap in Hp as (i & -> & Hi).
  apply list_elem_of_fmap in Hq as (j & -> & Hj).
  apply list_elem_of_In, in_seq in Hi, Hj.
  destruct (decide (i ≤ j)%nat).
  - eapply (Hmain i j); eauto; lia.
  - symmetry. eapply (Hmain j i); eauto; lia.
Qed.

Lemma elem_of_rev (x : string) (l : list string) : x ∈ rev l ↔ x ∈ l.
Proof. rewrite !list_elem_of_In. symmetry. apply in_rev. Qed.

Lemma first_match_verdict (env : SandboxEnvironment) (l : list string) :
  (∀ p q v w, p ∈ l → q ∈ l →
              verdict env p = Some v → verdict env q = Some w → v = w) →
  first_match env l = true ↔ ∃ p, p ∈ l ∧ verdict env p = Some true.
Proof.
  induction l as [|a l IH]; intros Hagree; simpl.
  - split; [done | intros (p & Hp & _); by apply elem_of_nil in Hp].
  - assert (Htail : ∀ p q v w, p ∈ l → q ∈ l →
              verdict env p = Some v → verdict env q = Some w → v = w).
    { intros p q v w Hp Hq. apply Hagree; by right. }
    destruct (is_blocked env a) eqn:Eb; [|destruct (is_listed env a) eqn:El].
    + split; [done |]. intros (p & Hp & Hv).
      assert (Ha : verdict env a = Some false)
        by (unfold verdict; by rewrite Eb).
      assert (false = true); [|done].
      eapply (Hagree a p); eauto. by left.
    + split; [intros _ | done]. exists a. split; [by left |].
      unfold verdict. by rewrite Eb, El.
    + rewrite (IH Htail). split; intros (p & Hp & Hv); exists p.
      * split; [by right | done].
      * split; [|done]. apply elem_of_cons in Hp as [-> | Hp]; [|done].
        unfold verdict in Hv. rewrite Eb, El in Hv. discriminate.
Qed.

(** On consistent tables the code and the resolution order of the
    specification give the same verdict for every name. *)
Lemma consistent_tables_order_independent (env : SandboxEnvironment)
    (name : string) :
  tables_consistent env = true →
  is_module_allowed env name = is_module_allowed_spec env name.
Proof.
  intros Hcons. rewrite is_module_allowed_unfold.
  unfold is_module_allowed_spec.
  destruct (is_blocked env name); [done |].
  destruct (is_listed env name); [done |].
  apply eq_true_iff_eq.
  rewrite !first_match_verdict.
  - split; intros (p & Hp & Hv); exists p; (split; [|done]).
    + by rewrite elem_of_rev.
    + by rewrite elem_of_rev in Hp.
  - intros p q v w Hp Hq. rewrite elem_of_rev in Hp, Hq.
    by apply (consistent_prefixes_agree env name).
  - intros p q v w. by apply (consistent_prefixes_agree env name).
Qed.

Lemma shipped_tables_consistent :
  tables_consistent default_environment = true.
Proof. vm_compute. reflexivity. Qed.

Lemma shipped_tables_order_independent (name : string) :
  is_module_allowed default_environment name
  = is_module_allowed_spec default_environment name.
Proof.
  apply consistent_tables_order_independent, shipped_tables_consistent.
Qed.

(** ** runtime.py: the execution context *)

(** [execution_context] runs its body in a state where the alarm is armed
    and the two fresh buffers are installed, then puts the saved streams
    back and clears the alarm, and hands on what the body came to. *)
Lemma execution_context_runs_body {A : Type} (env : SandboxEnvironment)
    (timeout : option nat) (now : Z) (body : context → M A) (s : state) :
  ∃ ctx s1,
    alarm s1 = default max_cpu_time timeout
    ∧ sys_stdout s1 = StringIO (ctx_stdout ctx)
    ∧ sys_stderr s1 = StringIO (ctx_stderr ctx)
    ∧ execution_context env timeout now body s
      = (set_is_executing false
           (set_alarm 0
              (set_sys_stderr (sys_stderr s)
                 (set_sys_stdout (sys_stdout s) (body ctx s1).1))),
         (body ctx s1).2).
Proof.
  run_M.
  match goal with
  | |- context [body ?c ?s1] =>
      exists c, s1; destruct (body c s1) as [s2 [a|e]]
  end; by repeat split.
Qed.


(** [execute_code], with its first two statements carried out. *)
Lemma load_variables_spec `{Python} (variables : option (Dict.t value))
    (s : state) :
  load_variables variables s
  = (set_session_vars (session_on_entry variables s) s, Return tt).
Proof.
  unfold session_on_entry, load_variables.
  destruct variables as [vars|]; [destruct (Dict.truthy vars) |];
    by destruct s.
Qed.

Lemma execute_code_unfold `{Python} (env : SandboxEnvironment)
    (ev : call_events) (code : string) (session_id : option string)
    (variables : option (Dict.t value)) (s : state) :
  execute_code env ev code session_id variables s
  = try_except
      (execution_context env None (clock_enter ev)
         (with_body ev code (globals_on_entry env variables s)))
      outer_handler
      (set_session_vars (session_on_entry variables s) s).
Proof.
  unfold execute_code, try_except, globals_on_entry.
  unfold mbind at 1, M_bind at 1. rewrite load_variables_spec.
  reflexivity.
Qed.

(** The [finally] clause also runs when [execute_code] is left through one
    of its [except] clauses or by an exception that none of them catches. *)
Lemma execute_code_restores `{Python} (env : SandboxEnvironment)
    (ev : call_events) (code : string) (session_id : option string)
    (variables : option (Dict.t value)) (s : state) :
  let r := execute_code env ev code session_id variables s in
  sys_stdout r.1 = sys_stdout s
  ∧ sys_stderr r.1 = sys_stderr s
  ∧ alarm r.1 = 0
  ∧ is_executing r.1 = false.
Proof.
  rewrite execute_code_unfold. unfold try_except.
  match goal with
  | |- context [execution_context ?e ?t ?n ?b ?s0] =>
      destruct (execution_context_runs_body e t n b s0)
        as (ctx & s1 & _ & _ & _ & ->)
  end.
  simpl. destruct (with_body _ _ _ _ _).2 as [res|e']; [done |].
  unfold outer_handler.
  destruct (catches TimeoutError e'); [done |].
  destruct (catches MemoryError e'); [done |].
  destruct (catches Exception e'); done.
Qed.

(** ** runtime.py: [execute_code] *)

(** The inner [try] in its three cases. *)
Lemma inner_try_finished `{Python} (out : exec_outcome) (s : state) :
  raised out = None → inner_try out s = (s, Return (true, None)).
Proof. intros E. unfold inner_try. by rewrite E. Qed.

Lemma inner_try_caught `{Python} (out : exec_outcome) (e : exception)
    (s : state) :
  raised out = Some e → catches Exception e = true →
  inner_try out s
  = (s, Return (false,
                Some {| err_type := class_name (exc_type e);
                        err_message := exc_message e;
                        err_traceback := py_format_exc e |})).
Proof. intros E C. unfold inner_try. by rewrite E, C. Qed.

Lemma inner_try_escapes `{Python} (out : exec_outcome) (e : exception)
    (s : state) :
  raised out = Some e → catches Exception e = false →
  inner_try out s = (s, Raise e).
Proof. intros E C. unfold inner_try. by rewrite E, C. Qed.

Lemma inner_try_status `{Python} (out : exec_outcome) (s s' : state)
    (status : bool * option error_descriptor) :
  inner_try out s = (s', Return status) →
  status.1 = true ↔ status.2 = None.
Proof.
  unfold inner_try. destruct (raised out) as [e|].
  - destruct (catches Exception e); [|discriminate].
    intros [= <- <-]. simpl. split; discriminate.
  - intros [= <- <-]. done.
Qed.

(** The [with] block when nothing goes wrong after the inner [try]: the
    result carries the text the code wrote, and the session is updated with
    the extracted variables, whether or not the code succeeded. *)
Lemma with_block_completes `{Python} (env : SandboxEnvironment)
    (ev : call_events) (code : string) (g : Dict.t value) (s0 : state)
    (status : bool * option error_descriptor)
    (user_vars : Dict.t value) (serialized : Dict.t (Dict.t value)) :
  let out := py_exec code g in
  (∀ s, inner_try out s = (s, Return status)) →
  late_signal ev = None →
  _extract_user_variables (ex_globals out) = Return user_vars →
  OutputHandler.serialize_variables user_vars = Return serialized →
  ∃ s',
    execution_context env None (clock_enter ev) (with_body ev code g) s0
    = (s', Return {| res_success := status.1;
                     res_stdout := ex_stdout out;
                     res_stderr := ex_stderr out;
                     res_variables := serialized;
                     res_plots :=
                       fold_left OutputHandler.capture_plot (ex_plots out)
                                 (plots s0);
                     res_error := status.2;
                     res_execution_time :=
                       Some (clock_leave ev - clock_enter ev)%Z;
                     res_memory_usage := Some (_get_memory_usage ev) |})
    ∧ session_vars s' = Dict.update (session_vars s0) user_vars.
Proof.
  intros out Hinner Hlate Hextract Hserialize.
  unfold execution_context, try_finally.
  unfold with_body, run_exec, deliver, getvalue, write.
  rewrite Hlate. fold out.
  run_M.
  assert (Hout : ∀ h : gmap nat string,
            default "" (alter (λ old, old +:+ ex_stderr out) (next_oid s0 + 1)
              (alter (λ old, old +:+ ex_stdout out) (next_oid s0)
                 (<[next_oid s0 + 1 := ""]> (<[next_oid s0 := ""]> h)))
              !! next_oid s0) = ex_stdout out).
  { intros h. rewrite lookup_alter_ne by lia. rewrite lookup_alter_eq.
    rewrite lookup_insert_ne by lia. by rewrite lookup_insert_eq. }
  assert (Herr : ∀ h : gmap nat string,
            default "" (alter (λ old, old +:+ ex_stderr out) (next_oid s0 + 1)
              (alter (λ old, old +:+ ex_stdout out) (next_oid s0)
                 (<[next_oid s0 + 1 := ""]> (<[next_oid s0 := ""]> h)))
              !! (next_oid s0 + 1)) = ex_stderr out).
  { intros h. rewrite lookup_alter_eq. rewrite lookup_alter_ne by lia.
    by rewrite lookup_insert_eq. }
  destruct (ex_end out) as [| e | [|]] eqn:Eend; simpl;
    rewrite Hinner, Hextract, Hserialize; simpl;
    rewrite Hout, Herr;
    (eexists; split; [reflexivity | reflexivity]).
Qed.

Lemma execute_code_completes `{Python} (env : SandboxEnvironment)
    (ev : call_events) (code : string) (session_id : option string)
    (variables : option (Dict.t value)) (s : state)
    (status : bool * option error_descriptor)
    (user_vars : Dict.t value) (serialized : Dict.t (Dict.t value)) :
  let out := py_exec code (globals_on_entry env variables s) in
  (∀ s, inner_try out s = (s, Return status)) →
  late_signal ev = None →
  _extract_user_variables (ex_globals out) = Return user_vars →
  OutputHandler.serialize_variables user_vars = Return serialized →
  ∃ s',
    execute_code env ev code session_id variables s
    = (s', Return {| res_success := status.1;
                     res_stdout := ex_stdout out;
                     res_stderr := ex_stderr out;
                     res_variables := serialized;
                     res_plots :=
                       fold_left OutputHandler.capture_plot (ex_plots out)
                                 (plots s);
                     res_error := status.2;
                     res_execution_time :=
                       Some (clock_leave ev - clock_enter ev)%Z;
                     res_memory_usage := Some (_get_memory_usage ev) |})
    ∧ session_vars s' = Dict.update (session_on_entry variables s) user_vars.
Proof.
  intros out Hinner Hlate Hextract Hserialize.
  rewrite execute_code_unfold. unfold try_except.
  destruct (with_block_completes env ev code
              (globals_on_entry env variables s)
              (set_session_vars (session_on_entry variables s) s)
              status user_vars serialized Hinner Hlate Hextract Hserialize)
    as (s' & -> & Hs').
  by exists s'.
Qed.

(** A result built inside the [with] block has both resource figures, and
    its error entry is empty exactly when it reports success. *)
Lemma with_body_result `{Python} (ev : call_events) (code : string)
    (g : Dict.t value) (ctx : context) (s s' : state) (res : result) :
  with_body ev code g ctx s = (s', Return res) →
  is_Some (res_execution_time res)
  ∧ is_Some (res_memory_usage res)
  ∧ (res_success res = true ↔ res_error res = None).
Proof.
  unfold with_body. unfold mbind, M_bind. simpl.
  intros E.
  repeat match type of E with
  | context [match ?x with _ => _ end] =>
      let F := fresh "F" in destruct x eqn:F; simpl in E; try discriminate
  end.
  injection E as _ <-. simpl.
  split; [by eexists |]. split; [by eexists |].
  eapply inner_try_status; eassumption.
Qed.

Lemma with_block_result `{Python} (env : SandboxEnvironment)
    (ev : call_events) (code : string) (g : Dict.t value) (s0 s' : state)
    (res : result) :
  execution_context env None (clock_enter ev) (with_body ev code g) s0
  = (s', Return res) →
  is_Some (res_execution_time res)
  ∧ is_Some (res_memory_usage res)
  ∧ (res_success res = true ↔ res_error res = None).
Proof.
  intros E.
  destruct (execution_context_runs_body env None (clock_enter ev)
              (with_body ev code g) s0) as (ctx & s1 & _ & _ & _ & Hr).
  rewrite E in Hr. injection Hr as _ Hr.
  destruct (with_body ev code g ctx s1) as [s2 r] eqn:F. simpl in Hr.
  subst r. by eapply with_body_result.
Qed.



(** Nor is a signal needed: [Exception.__base__] is [BaseException], which
    the executed code may raise and no [except] clause catches. *)
Example base_exception_escapes :
  (execute_code (H := Example.interpreter None) default_environment
     Example.quiet "raise Exception.__base__('stop')" None None
     Example.idle).2
  = Raise {| exc_type := BaseException; exc_message := "stop" |}.
Proof. reflexivity. Qed.






(** A [TimeoutError] raised after the code is over is caught by the outer
    clause, whose result has empty output. *)
Lemma late_timeout_discards_output `{Python} (env : SandboxEnvironment)
    (ev : call_events) (code : string) (session_id : option string)
    (variables : option (Dict.t value)) (s : state)
    (status : bool * option error_descriptor) :
  (∀ s1, inner_try (py_exec code (globals_on_entry env variables s)) s1
         = (s1, Return status)) →
  late_signal ev = Some (AfterExec, SIGALRM) →
  (execute_code env ev code session_id variables s).2 = Return timeout_result.
Proof.
  intros Hinner Hlate. rewrite execute_code_unfold.
  unfold try_except, execution_context, try_finally.
  unfold with_body, run_exec, deliver, write. rewrite Hlate.
  run_M.
  destruct (ex_end _) as [| e | [|]]; simpl; rewrite Hinner; reflexivity.
Qed.


(** ** import_hook.py: the resolution chain *)

(** The hook [patch_import_system] builds is new, so the membership test in
    front of the insertion never holds it back. *)
Lemma patch_import_system_always_registers
    (environment : option SandboxEnvironment) (s : state) :
  chain_allocated s →
  patch_import_system environment s
  = (set_meta_path (ImportHook (next_oid s) :: meta_path s)
       (set_next_oid (next_oid s + 1) s),
     Return (ImportHook (next_oid s))).
Proof.
  intros Halloc. unfold patch_import_system, new_ImportHook. run_M.
  rewrite bool_decide_eq_true_2; [reflexivity |].
  intros Hin. apply Halloc in Hin. lia.
Qed.

Lemma patch_import_system_allocated
    (environment : option SandboxEnvironment) (s : state) :
  chain_allocated s → chain_allocated (patch_import_system environment s).1.
Proof.
  intros Halloc. rewrite patch_import_system_always_registers by done.
  intros oid Hin. simpl in *.
  apply elem_of_cons in Hin as [[= ->] | Hin]; [lia |].
  apply Halloc in Hin. lia.
Qed.

(** C8.  Installing the hook a second time is not rejected: the chain of a
    fresh process holds one import hook after the first
    [patch_import_system] and two after the second. *)
Theorem patch_import_system_twice_registers_two_hooks :
  let s1 := (patch_import_system None Example.idle).1 in
  let s2 := (patch_import_system None s1).1 in
  hooks_in (meta_path s1) = 1
  ∧ hooks_in (meta_path s2) = 2
  ∧ meta_path s2
    = [ImportHook 1; ImportHook 0; SystemFinder "BuiltinImporter";
       SystemFinder "FrozenImporter"; SystemFinder "PathFinder"]
  ∧ ¬ second_registration_rejected Example.idle.
Proof.
  repeat split; try reflexivity.
  unfold second_registration_rejected. vm_compute. discriminate.
Qed.

Lemma list_remove_registrations (x y : finder) (chain : list finder) :
  x ∈ chain →
  registrations y (list_remove x chain)
  = if bool_decide (y = x) then registrations y chain - 1
    else registrations y chain.
Proof.
  unfold registrations. induction chain as [|z chain IH]; intros Hin.
  - by apply elem_of_nil in Hin.
  - simpl. destruct (bool_decide_reflect (x = z)) as [<- | Hne].
    + rewrite filter_cons. destruct (bool_decide_reflect (y = x)) as [-> |].
      * rewrite decide_True by done. simpl. lia.
      * by rewrite decide_False.
    + apply elem_of_cons in Hin as [-> | Hin]; [done |].
      rewrite !filter_cons. specialize (IH Hin).
      destruct (decide (y = z)) as [-> |]; simpl; [|done].
      rewrite IH. rewrite bool_decide_eq_false_2 by done. done.
Qed.

(** Removing the hook takes exactly one registration of it off the chain
    and leaves every other finder's registrations alone; a hook that is not
    on the chain leaves the chain as it is. *)
Lemma unpatch_import_system_removes_once (hook x : finder) (s : state) :
  let s' := (unpatch_import_system hook s).1 in
  (hook ∈ meta_path s →
   registrations hook (meta_path s') = registrations hook (meta_path s) - 1)
  ∧ (hook ∉ meta_path s → meta_path s' = meta_path s)
  ∧ (x ≠ hook →
     registrations x (meta_path s') = registrations x (meta_path s)).
Proof.
  unfold unpatch_import_system. run_M.
  destruct (bool_decide_reflect (hook ∈ meta_path s)) as [Hin | Hout]; simpl.
  - split; [|split].
    + intros _. rewrite list_remove_registrations by done.
      by rewrite bool_decide_eq_true_2.
    + done.
    + intros Hne. rewrite list_remove_registrations by done.
      by rewrite bool_decide_eq_false_2.
  - by repeat split.
Qed.

(** A hook installed by [patch_import_system] is gone after one
    [unpatch_import_system]. *)
Lemma patch_then_unpatch (environment : option SandboxEnvironment)
    (s : state) :
  chain_allocated s →
  let r := patch_import_system environment s in
  match r.2 with
  | Return hook =>
      meta_path (unpatch_import_system hook r.1).1 = meta_path s
  | Raise _ => False
  end.
Proof.
  intros Halloc. rewrite patch_import_system_always_registers by done.
  simpl. unfold unpatch_import_system. run_M.
  rewrite bool_decide_eq_true_2 by left. simpl.
  by rewrite bool_decide_eq_true_2.
Qed.

(** ** output_handler.py: [serialize_variables] *)

Lemma keys_set {V : Type} (k k' : string) (v : V) (d : Dict.t V) :
  k' ∈ Dict.keys (Dict.set k v d) ↔ k' = k ∨ k' ∈ Dict.keys d.
Proof.
  unfold Dict.keys. induction d as [|[k0 v0] d IH]; simpl.
  - rewrite list_elem_of_singleton. split; [by left | intros [|Hin]; [done |]].
    by apply elem_of_nil in Hin.
  - destruct (String.eqb_spec k k0) as [-> | Hne]; simpl.
    + rewrite !elem_of_cons. tauto.
    + rewrite !elem_of_cons, IH. tauto.
Qed.

Section WithPython.
Context `{Python}.

Lemma serialize_items_keys (items : list (string * value))
    (serialized : Dict.t (Dict.t value)) :
  handler_succeeds items →
  ∃ out,
    OutputHandler.serialize_items items serialized = Return out
    ∧ ∀ name, name ∈ Dict.keys out
              ↔ name ∈ Dict.keys serialized ∨ name ∈ Dict.keys items.
Proof.
  revert serialized.
  induction items as [|[name v] rest IH]; intros serialized Hok; simpl.
  - exists serialized. split; [done |]. intros k. split; [by left |].
    intros [|Hin]; [done |]. by apply elem_of_nil in Hin.
  - assert (Hrest : handler_succeeds rest).
    { intros n w e Hin. apply (Hok n w e). by right. }
    destruct (OutputHandler._serialize_value v) as [d|e] eqn:E.
    + destruct (IH (Dict.set name d serialized) Hrest) as (out & -> & Hk).
      exists out. split; [done |]. intros k. rewrite Hk, keys_set.
      rewrite elem_of_cons. simpl. tauto.
    + destruct (Hok name v e) as (-> & text & Htext); [by left | done |].
      unfold OutputHandler.error_info. rewrite Htext. simpl.
      match goal with
      | |- context [Dict.set name ?d serialized] =>
          destruct (IH (Dict.set name d serialized) Hrest)
            as (out & Hout & Hk)
      end.
      exists out. split; [exact Hout |]. intros k. rewrite Hk, keys_set.
      rewrite elem_of_cons. simpl. tauto.
Qed.

(** When the handler cannot fail, every name of the input has an entry in
    the output and the output has no other name. *)
Lemma serialize_variables_keeps_names (variables : Dict.t value) :
  handler_succeeds variables → keeps_every_name variables.
Proof.
  intros Hok. unfold keeps_every_name, OutputHandler.serialize_variables.
  destruct (serialize_items_keys variables Dict.empty Hok)
    as (out & -> & Hk).
  exists out. split; [done |]. intros k. rewrite Hk.
  split; [intros [Hin|]; [by apply elem_of_nil in Hin | done] | by right].
Qed.

End WithPython.

(** C10.  A value whose [str] raises makes [_serialize_value] fail and then
    the handler that was to record the failure fail too: the exception
    leaves [serialize_variables], and no mapping is returned, not even for
    the names that serialized well. *)
Theorem serialize_variables_handler_raises :
  OutputHandler.serialize_variables (H := Example.interpreter None)
    [("n", VInt 1); ("x", VObject 0)]
  = Raise Example.broken_str
  ∧ ¬ keeps_every_name (H := Example.interpreter None)
        [("n", VInt 1); ("x", VObject 0)].
Proof.
  split; [reflexivity |].
  unfold keeps_every_name. intros (out & Hout & _).
  vm_compute in Hout. discriminate.
Qed.

(** A list that holds an object [json] cannot encode: [_serialize_value]
    raises [KeyError], the handler records it, and the name is kept. *)
Example serialize_variables_records_failure :
  OutputHandler.serialize_variables (H := Example.interpreter None)
    [("x", VList [VObject 1])]
  = Return [("x", [("type", VStr "list");
                   ("error", VStr "Serialization failed: 'value'");
                   ("repr", VStr "[<Record object>]")])].
Proof. reflexivity. Qed.

(** * Further properties of the sources *)

(** ** Dictionaries: lookup after assignment and after [update] *)

Lemma get_set_eq {V : Type} (k : string) (v : V) (d : Dict.t V) :
  Dict.get k (Dict.set k v d) = Some v.
Proof.
  induction d as [|[k0 v0] d IH]; simpl.
  - by rewrite String.eqb_refl.
  - destruct (String.eqb_spec k k0) as [-> | Hne]; simpl.
    + by rewrite String.eqb_refl.
    + destruct (String.eqb_spec k k0); [done | exact IH].
Qed.

Lemma get_set_ne {V : Type} (k k' : string) (v : V) (d : Dict.t V) :
  k ≠ k' → Dict.get k' (Dict.set k v d) = Dict.get k' d.
Proof.
  intros Hne. induction d as [|[k0 v0] d IH]; simpl.
  - destruct (String.eqb_spec k' k); [congruence | done].
  - destruct (String.eqb_spec k k0) as [-> | Hne0]; simpl.
    + destruct (String.eqb_spec k' k0); [congruence | done].
    + destruct (String.eqb_spec k' k0); [done | exact IH].
Qed.

Lemma get_None_keys {V : Type} (k : string) (d : Dict.t V) :
  Dict.get k d = None ↔ k ∉ Dict.keys d.
Proof.
  unfold Dict.keys. induction d as [|[k0 v0] d IH]; simpl.
  - split; [intros _ Hin; by apply elem_of_nil in Hin | done].
  - rewrite not_elem_of_cons.
    destruct (String.eqb_spec k k0) as [-> | Hne].
    + split; [done | by intros [? _]].
    + rewrite IH. split; [by split | by intros [_ ?]].
Qed.

Lemma get_Some_elem {V : Type} (k : string) (v : V) (d : Dict.t V) :
  Dict.get k d = Some v → (k, v) ∈ d.
Proof.
  induction d as [|[k0 v0] d IH]; simpl; [done |].
  destruct (String.eqb_spec k k0) as [-> | Hne].
  - intros [= ->]. by left.
  - intros Hget. right. by apply IH.
Qed.

Lemma elem_get_Some {V : Type} (k : string) (v : V) (d : Dict.t V) :
  dict_wf d → (k, v) ∈ d → Dict.get k d = Some v.
Proof.
  unfold dict_wf, Dict.keys.
  induction d as [|[k0 v0] d IH]; simpl; intros Hwf Hin.
  - by apply elem_of_nil in Hin.
  - apply NoDup_cons in Hwf as [Hk0 Hwf].
    apply elem_of_cons in Hin as [[= -> ->] | Hin].
    + by rewrite String.eqb_refl.
    + destruct (String.eqb_spec k k0) as [-> | Hne]; [|by apply IH].
      exfalso. apply Hk0. apply list_elem_of_fmap. by exists (k0, v).
Qed.

Lemma keys_update {V : Type} (k : string) (d other : Dict.t V) :
  k ∈ Dict.keys (Dict.update d other)
  ↔ k ∈ Dict.keys d ∨ k ∈ Dict.keys other.
Proof.
  unfold Dict.update. revert d.
  induction other as [|[k0 v0] other IH]; intros d; simpl.
  - split; [by left | intros [|Hin]; [done | by apply elem_of_nil in Hin]].
  - rewrite IH, keys_set, elem_of_cons. simpl. tauto.
Qed.

Lemma set_wf {V : Type} (k : string) (v : V) (d : Dict.t V) :
  dict_wf d → dict_wf (Dict.set k v d).
Proof.
  unfold dict_wf, Dict.keys.
  induction d as [|[k0 v0] d IH]; simpl; intros Hwf.
  - apply NoDup_singleton.
  - apply NoDup_cons in Hwf as [Hk0 Hwf].
    destruct (String.eqb_spec k k0) as [-> | Hne]; simpl.
    + by apply NoDup_cons.
    + apply NoDup_cons. split; [|by apply IH].
      intros Hin. apply (keys_set k k0 v d) in Hin as [|Hin]; [congruence |].
      by apply Hk0.
Qed.

Lemma update_wf {V : Type} (d other : Dict.t V) :
  dict_wf d → dict_wf (Dict.update d other).
Proof.
  unfold Dict.update. revert d.
  induction other as [|[k0 v0] other IH]; intros d Hwf; simpl; [done |].
  apply IH. by apply set_wf.
Qed.

(** After [d.update(other)] a key reads what [other] binds it to, and what
    [d] bound it to when [other] does not bind it. *)
Lemma get_update {V : Type} (k : string) (d other : Dict.t V) :
  dict_wf other →
  Dict.get k (Dict.update d other)
  = match Dict.get k other with
    | Some v => Some v
    | None => Dict.get k d
    end.
Proof.
  unfold Dict.update. revert d.
  induction other as [|[k0 v0] other IH]; intros d Hwf; simpl; [done |].
  unfold dict_wf, Dict.keys in Hwf. simpl in Hwf.
  apply NoDup_cons in Hwf as [Hk0 Hwf].
  rewrite IH by done.
  destruct (String.eqb_spec k k0) as [-> | Hne].
  - assert (Dict.get k0 other = None) as -> by (by apply get_None_keys).
    apply get_set_eq.
  - destruct (Dict.get k other); [done |]. by apply get_set_ne.
Qed.

(** ** sandbox_env.py: what a top-level entry decides *)

Lemma dotted_prefixes_head (name : string) :
  ∃ top rest,
    Text.split "." name = top :: rest
    ∧ dotted_prefixes name
      = top :: map (parent_module (top :: rest)) (seq 1 (length rest)).
Proof.
  unfold dotted_prefixes.
  destruct (Text.split "." name) as [|top rest] eqn:E;
    [by apply split_nonempty in E |].
  exists top, rest. split; [done |]. simpl. f_equal.
Qed.

(** X1.  A name whose top-level package is in the deny table is denied,
    unless the name has an allow-table entry of its own. *)
Theorem blocked_package_denies_submodules (env : SandboxEnvironment)
    (module_name top : string) (rest : list string) :
  Text.split "." module_name = top :: rest →
  top ∈ blocked_modules env →
  allowed_modules env !! module_name = None →
  is_module_allowed env module_name = false.
Proof.
  intros Hsplit Htop Hexact. rewrite is_module_allowed_unfold.
  destruct (is_blocked env module_name); [done |].
  rewrite (is_listed_false _ _ Hexact).
  destruct (dotted_prefixes_head module_name) as (top' & rest' & E & ->).
  rewrite Hsplit in E. injection E as <- <-. simpl.
  unfold is_blocked. by rewrite bool_decide_eq_true_2.
Qed.

Lemma blocked_package_denies_submodules_witness :
  is_module_allowed default_environment "os.path" = false.
Proof.
  apply (blocked_package_denies_submodules default_environment "os.path"
           "os" ["path"]); [reflexivity | vm_compute; reflexivity | reflexivity].
Defined.

(** X2.  A name whose top-level package is in the allow table and not in
    the deny table is allowed unless the name itself is in the deny table:
    a denied package in between does not matter. *)
Theorem allowed_package_allows_submodules (env : SandboxEnvironment)
    (module_name top : string) (rest : list string) :
  Text.split "." module_name = top :: rest →
  is_Some (allowed_modules env !! top) →
  top ∉ blocked_modules env →
  module_name ∉ blocked_modules env →
  is_module_allowed env module_name = true.
Proof.
  intros Hsplit Htop Hfree Hname. rewrite is_module_allowed_unfold.
  unfold is_blocked at 1. rewrite bool_decide_eq_false_2 by done.
  destruct (is_listed env module_name); [done |].
  destruct (dotted_prefixes_head module_name) as (top' & rest' & E & ->).
  rewrite Hsplit in E. injection E as <- <-. simpl.
  unfold is_blocked, is_listed.
  rewrite bool_decide_eq_false_2 by done. by rewrite bool_decide_eq_true_2.
Qed.

Lemma allowed_package_allows_submodules_witness :
  is_module_allowed Example.nested_policy "a.b.c" = true.
Proof.
  apply (allowed_package_allows_submodules Example.nested_policy "a.b.c"
           "a" ["b"; "c"]); [reflexivity | by eexists | |];
    apply (proj1 (bool_decide_eq_false _)); vm_compute; reflexivity.
Defined.

(** ** sandbox_env.py: the filtered module *)

Lemma filter_fold_get (m : module) (attrs : list string) (acc : module)
    (a : string) :
  Dict.get a (module_dict
    (fold_left
       (fun filtered attr_name =>
          match Dict.get attr_name (module_dict m) with
          | Some v => setattr filtered attr_name v
          | None => filtered
          end)
       attrs acc))
  = if bool_decide (a ∈ attrs ∧ is_Some (Dict.get a (module_dict m)))
    then Dict.get a (module_dict m)
    else Dict.get a (module_dict acc).
Proof.
  revert acc. induction attrs as [|x attrs IH]; intros acc; cbn [fold_left].
  - rewrite bool_decide_eq_false_2; [done |].
    intros [Hin _]. by apply elem_of_nil in Hin.
  - rewrite IH. destruct (decide (a = x)) as [-> | Hne].
    + destruct (Dict.get x (module_dict m)) as [v|] eqn:Ex.
      * simpl. rewrite get_set_eq.
        rewrite (bool_decide_eq_true_2 (x ∈ x :: attrs ∧ _))
          by (split; [left | by eexists]).
        by destruct (bool_decide _).
      * rewrite (bool_decide_eq_false_2 (x ∈ x :: attrs ∧ _))
          by (by intros [_ [? ?]]).
        rewrite (bool_decide_eq_false_2 (x ∈ attrs ∧ _))
          by (by intros [_ [? ?]]).
        done.
    + assert (Hacc : Dict.get a
                (module_dict match Dict.get x (module_dict m) with
                             | Some v => setattr acc x v
                             | None => acc
                             end) = Dict.get a (module_dict acc)).
      { destruct (Dict.get x (module_dict m)); [|done].
        simpl. by apply get_set_ne. }
      rewrite Hacc. apply (f_equal (fun b : bool => if b then _ else _)).
      apply bool_decide_ext. rewrite elem_of_cons. tauto.
Qed.

Lemma filter_module_get (env : SandboxEnvironment)
    (m : module) (module_name : string) (allowed_attrs : list string)
    (a : string) :
  get_allowed_attributes env module_name = Some allowed_attrs →
  Dict.get a (module_dict (filter_module_attributes env m module_name))
  = if bool_decide (a ∈ allowed_attrs ∧ is_Some (Dict.get a (module_dict m)))
    then Dict.get a (module_dict m)
    else Dict.get a (module_dict (ModuleType module_name)).
Proof.
  intros E. unfold filter_module_attributes. rewrite E.
  apply filter_fold_get.
Qed.

(** X3.  For a module with a restricted entry, the filtered module reads,
    for an allowed attribute that the module has, what the module binds it
    to, and for every other name only what a fresh [ModuleType] has: nothing
    outside the allow list comes through. *)
Theorem filtered_module_exposes_allowed_only (env : SandboxEnvironment)
    (m : module) (module_name : string) (allowed_attrs : list string)
    (a : string) :
  get_allowed_attributes env module_name = Some allowed_attrs →
  Dict.get a (module_dict (filter_module_attributes env m module_name))
  = if bool_decide (a ∈ allowed_attrs ∧ is_Some (Dict.get a (module_dict m)))
    then Dict.get a (module_dict m)
    else Dict.get a (module_dict (ModuleType module_name)).
Proof.
  intros E. unfold filter_module_attributes. rewrite E.
  apply filter_fold_get.
Qed.

Lemma filtered_module_exposes_allowed_only_witness :
  let json := {| module_name_of := "json";
                 module_dict := [("loads", VBuiltin "loads");
                                 ("dumps", VBuiltin "dumps");
                                 ("load", VBuiltin "load")] |} in
  Dict.get "load"
    (module_dict (filter_module_attributes default_environment json "json"))
  = None
  ∧ Dict.get "loads"
      (module_dict (filter_module_attributes default_environment json "json"))
    = Some (VBuiltin "loads").
Proof.
  split.
  - by rewrite (filtered_module_exposes_allowed_only default_environment _
                  "json" ["loads"; "dumps"] "load" eq_refl).
  - by rewrite (filtered_module_exposes_allowed_only default_environment _
                  "json" ["loads"; "dumps"] "loads" eq_refl).
Defined.

(** ** sandbox_env.py: the safe globals *)

Lemma get_update_other {V : Type} (k : string) (d other : Dict.t V) :
  k ∉ Dict.keys other → Dict.get k (Dict.update d other) = Dict.get k d.
Proof.
  unfold Dict.update, Dict.keys. revert d.
  induction other as [|[k0 v0] other IH]; intros d Hk; simpl; [done |].
  simpl in Hk. apply not_elem_of_cons in Hk as [Hne Hk].
  rewrite IH by done. by apply get_set_ne.
Qed.

Lemma builtins_fold_get `{Python} (names : list string) (acc : Dict.t value)
    (name : string) (v : value) :
  Dict.get name
    (fold_left
       (fun acc name =>
          if py_has_builtin name then Dict.set name (VBuiltin name) acc
          else acc)
       names acc) = Some v →
  Dict.get name acc = Some v
  ∨ (name ∈ names ∧ py_has_builtin name = true ∧ v = VBuiltin name).
Proof.
  revert acc. induction names as [|x names IH]; intros acc; cbn [fold_left].
  - by left.
  - intros Hget. apply IH in Hget as [Hget | (Hin & Hhas & ->)].
    + destruct (py_has_builtin x) eqn:Ex; [|by left].
      destruct (decide (x = name)) as [-> | Hne].
      * rewrite get_set_eq in Hget. injection Hget as <-.
        right. split; [by left | by split].
      * rewrite get_set_ne in Hget by done. by left.
    + right. split; [by right | by split].
Qed.



(** ** runtime.py: what the executed code starts with *)

Lemma session_on_entry_cases `{Python} (variables : option (Dict.t value))
    (s : state) :
  session_on_entry variables s
  = match variables with
    | Some vars => Dict.update (session_vars s) vars
    | None => session_vars s
    end.
Proof.
  unfold session_on_entry, load_variables.
  destruct variables as [[|kv vars]|]; reflexivity.
Qed.

(** X5.  In the execution globals a name reads the caller's input binding
    when there is one, else the session binding when there is one, else the
    safe global: input and session bindings override every safe global,
    [__builtins__] included. *)
Theorem execution_globals_precedence `{Python} (env : SandboxEnvironment)
    (variables : option (Dict.t value)) (s : state) (k : string) :
  dict_wf (session_vars s) →
  match variables with Some vars => dict_wf vars | None => True end →
  Dict.get k (globals_on_entry env variables s)
  = match match variables with
          | Some vars => Dict.get k vars
          | None => None
          end with
    | Some v => Some v
    | None =>
        match Dict.get k (session_vars s) with
        | Some v => Some v
        | None => Dict.get k (get_safe_globals env)
        end
    end.
Proof.
  intros Hsession Hvars. unfold globals_on_entry.
  rewrite session_on_entry_cases.
  destruct variables as [vars|].
  - rewrite get_update by (by apply update_wf).
    rewrite get_update by done.
    by destruct (Dict.get k vars).
  - by rewrite get_update.
Qed.

Lemma execution_globals_precedence_witness :
  Dict.get "__builtins__"
    (globals_on_entry (H := Example.interpreter None) default_environment
       (Some [("__builtins__", VDict [("eval", VBuiltin "eval")])])
       Example.idle)
  = Some (VDict [("eval", VBuiltin "eval")]).
Proof.
  rewrite (execution_globals_precedence (H := Example.interpreter None)).
  - reflexivity.
  - apply NoDup_nil_2.
  - apply NoDup_singleton.
Defined.

(** ** runtime.py: [_extract_user_variables] *)

Lemma extract_items_get `{Python} (items : list (string * value))
    (acc uv : Dict.t value) (k : string) (v : value) :
  extract_items items acc = Return uv →
  Dict.get k uv = Some v →
  Dict.get k acc = Some v
  ∨ (Text.startswith "_" k = false
     ∧ ∃ v0, (k, v0) ∈ items
             ∧ py_callable v0 = false
             ∧ py_has_module_attr v0 = false
             ∧ (v = v0 ∨ ∃ text, py_str v0 = Return text ∧ v = VStr text)).
Proof.
  revert acc. induction items as [|[name v0] rest IH]; intros acc; simpl.
  - intros [= ->] Hget. by left.
  - assert (Hlater : ∀ acc',
              extract_items rest acc' = Return uv → Dict.get k uv = Some v →
              Dict.get k acc' = Some v
              ∨ (Text.startswith "_" k = false
                 ∧ ∃ v1, (k, v1) ∈ (name, v0) :: rest
                         ∧ py_callable v1 = false
                         ∧ py_has_module_attr v1 = false
                         ∧ (v = v1
                            ∨ ∃ text, py_str v1 = Return text
                                      ∧ v = VStr text))).
    { intros acc' Hrest Hget.
      destruct (IH acc' Hrest Hget) as [? | (Hk & v1 & Hin & ?)]; [by left |].
      right. split; [done |]. exists v1. split; [by right | done]. }
    destruct (negb (Text.startswith "_" name)) eqn:Hpub; simpl;
      [|by apply Hlater].
    destruct (negb (bool_decide (name ∈ skip_vars))) eqn:Hskip; simpl;
      [|by apply Hlater].
    destruct (negb (py_callable v0)) eqn:Hcall; simpl; [|by apply Hlater].
    destruct (negb (py_has_module_attr v0)) eqn:Hmod; simpl;
      [|by apply Hlater].
    apply negb_true_iff in Hpub, Hcall, Hmod.
    assert (Hstored : ∀ w,
              (w = v0 ∨ ∃ text, py_str v0 = Return text ∧ w = VStr text) →
              extract_items rest (Dict.set name w acc) = Return uv →
              Dict.get k uv = Some v →
              Dict.get k acc = Some v
              ∨ (Text.startswith "_" k = false
                 ∧ ∃ v1, (k, v1) ∈ (name, v0) :: rest
                         ∧ py_callable v1 = false
                         ∧ py_has_module_attr v1 = false
                         ∧ (v = v1
                            ∨ ∃ text, py_str v1 = Return text
                                      ∧ v = VStr text))).
    { intros w Hw Hrest Hget.
      destruct (Hlater _ Hrest Hget) as [Hacc | ?]; [|by right].
      destruct (decide (name = k)) as [-> | Hne].
      - rewrite get_set_eq in Hacc. injection Hacc as ->.
        right. split; [done |]. exists v0. split; [by left | done].
      - rewrite get_set_ne in Hacc by done. by left. }
    destruct (py_json_dumps_default_str v0) as [[]|e].
    + apply Hstored. by left.
    + destruct (catches TypeError e || catches ValueError e); [|done].
      destruct (py_str v0) as [text|e'] eqn:Hstr; simpl; [|done].
      apply Hstored. right. by exists text.
Qed.



(** ** runtime.py: the session across a call *)

Lemma keeps_session_bind {A B : Type} (m : M A) (f : A → M B) :
  keeps_session m → (∀ a, keeps_session (f a)) → keeps_session (m ≫= f).
Proof.
  intros Hm Hf s. unfold mbind, M_bind. specialize (Hm s).
  destruct (m s) as [s1 [a|e]]; simpl in *; [|done].
  by rewrite Hf.
Qed.

Lemma keeps_session_ret {A : Type} (a : A) : keeps_session (mret a).
Proof. by intros s. Qed.

Lemma keeps_session_lift {A : Type} (r : outcome A) : keeps_session (lift r).
Proof. by intros s. Qed.

Lemma keeps_session_gets {A : Type} (f : state → A) : keeps_session (gets f).
Proof. by intros s. Qed.

Lemma keeps_session_modify (f : state → state) :
  (∀ s, session_vars (f s) = session_vars s) → keeps_session (modify f).
Proof. intros Hf s. apply Hf. Qed.

Lemma keeps_session_write (target : stream) (text : string) :
  keeps_session (write target text).
Proof. destruct target; by intros s. Qed.

Lemma keeps_session_deliver (ev : call_events) (point : body_point) :
  keeps_session (deliver ev point).
Proof.
  unfold deliver. destruct (late_signal ev) as [[p sig]|]; [|by intros s].
  destruct (bool_decide (p = point)); [|by intros s].
  destruct sig; by intros s.
Qed.

Lemma keeps_session_run_exec `{Python} (code : string) (g : Dict.t value) :
  keeps_session (run_exec code g).
Proof.
  unfold run_exec.
  repeat (apply keeps_session_bind; [|intros ?]);
    try apply keeps_session_gets; try apply keeps_session_write;
    try apply keeps_session_ret; try (by apply keeps_session_modify).
  destruct (ex_end _) as [| |[|]];
    try apply keeps_session_ret; by apply keeps_session_modify.
Qed.

Lemma run_exec_returns `{Python} (code : string) (g : Dict.t value)
    (s : state) :
  (run_exec code g s).2 = Return (py_exec code g).
Proof.
  unfold run_exec, write. run_M.
  destruct (sys_stdout s); simpl; destruct (sys_stderr s); simpl;
    by destruct (ex_end _) as [| |[|]].
Qed.

Lemma keeps_session_inner_try `{Python} (out : exec_outcome) :
  keeps_session (inner_try out).
Proof.
  unfold inner_try. destruct (raised out) as [e|]; [|by intros s].
  destruct (catches Exception e); by intros s.
Qed.

Lemma updates_session_keeps {A : Type} (extracted : outcome (Dict.t value))
    (m : M A) :
  keeps_session m → updates_session extracted m.
Proof. intros Hm s. left. apply Hm. Qed.

Lemma updates_session_bind {A B : Type} (extracted : outcome (Dict.t value))
    (m : M A) (f : A → M B) :
  keeps_session m → (∀ a, updates_session extracted (f a)) →
  updates_session extracted (m ≫= f).
Proof.
  intros Hm Hf s. unfold mbind, M_bind. specialize (Hm s).
  destruct (m s) as [s1 [a|e]]; simpl in *; [|by left].
  rewrite <- Hm. apply Hf.
Qed.

Lemma updates_session_returned {A B : Type}
    (extracted : outcome (Dict.t value)) (m : M A) (f : A → M B) (a0 : A) :
  keeps_session m → (∀ s, (m s).2 = Return a0) →
  updates_session extracted (f a0) →
  updates_session extracted (m ≫= f).
Proof.
  intros Hm Hret Hf s. unfold mbind, M_bind.
  specialize (Hm s). specialize (Hret s).
  destruct (m s) as [s1 [a|e]]; simpl in *; [|by left].
  injection Hret as ->. rewrite <- Hm. apply Hf.
Qed.

Lemma updates_session_extract {B : Type}
    (extracted : outcome (Dict.t value)) (rest : Dict.t value → M B) :
  (∀ uv, keeps_session (rest uv)) →
  updates_session extracted
    (lift extracted
     ≫= fun user_variables =>
          modify (fun s =>
            set_session_vars (Dict.update (session_vars s) user_variables) s)
          ≫= fun _ => rest user_variables).
Proof.
  intros Hrest s. unfold mbind, M_bind, lift, modify.
  destruct extracted as [uv|e]; simpl; [|by left].
  right. exists uv. split; [done |]. by rewrite Hrest.
Qed.

Lemma with_body_session `{Python} (ev : call_events) (code : string)
    (g : Dict.t value) (ctx : context) :
  updates_session (_extract_user_variables (ex_globals (py_exec code g)))
    (with_body ev code g ctx).
Proof.
  unfold with_body.
  apply (updates_session_returned _ _ _ (py_exec code g));
    [apply keeps_session_run_exec | apply run_exec_returns |].
  apply updates_session_bind; [apply keeps_session_inner_try | intros status].
  apply updates_session_bind; [apply keeps_session_deliver | intros _].
  apply updates_session_bind; [apply keeps_session_gets | intros out].
  apply updates_session_bind; [apply keeps_session_gets | intros err].
  apply updates_session_extract. intros uv.
  repeat (apply keeps_session_bind; [|intros ?]);
    try apply keeps_session_deliver; try apply keeps_session_gets;
    try apply keeps_session_lift; try apply keeps_session_ret.
Qed.

Lemma execution_context_session {A : Type} (env : SandboxEnvironment)
    (timeout : option nat) (now : Z) (body : context → M A) (s : state) :
  ∃ ctx s1,
    session_vars s1 = session_vars s
    ∧ session_vars (execution_context env timeout now body s).1
      = session_vars (body ctx s1).1.
Proof.
  run_M.
  match goal with
  | |- context [body ?c ?s1] =>
      exists c, s1; destruct (body c s1) as [s2 [a|e]]
  end; by split.
Qed.


(** ** output_handler.py: the captured plots *)

Lemma capture_plot_cases (plots : list (Dict.t value)) (p : Dict.t value) :
  (length plots ≤ OutputHandler.max_plots)%nat →
  OutputHandler.capture_plot plots p
  = drop (length (plots ++ [p]) - OutputHandler.max_plots) (plots ++ [p]).
Proof.
  intros Hlen. unfold OutputHandler.capture_plot.
  rewrite length_app. simpl length.
  case_bool_decide as Hfull.
  - replace (length plots + 1 - OutputHandler.max_plots) with 1 by lia.
    by destruct (plots ++ [p]).
  - replace (length plots + 1 - OutputHandler.max_plots) with 0 by lia.
    done.
Qed.

(** X8.  The plot list never grows beyond [max_plots]: capturing further
    plots keeps exactly the newest [max_plots] of the old and the new ones,
    in order, and drops the oldest. *)
Theorem captured_plots_keep_newest (plots new : list (Dict.t value)) :
  (length plots ≤ OutputHandler.max_plots)%nat →
  fold_left OutputHandler.capture_plot new plots
  = drop (length (plots ++ new) - OutputHandler.max_plots) (plots ++ new)
  ∧ (length (fold_left OutputHandler.capture_plot new plots)
     ≤ OutputHandler.max_plots)%nat.
Proof.
  revert plots. induction new as [|p new IH]; intros plots Hlen; simpl.
  - rewrite app_nil_r.
    replace (length plots - OutputHandler.max_plots) with 0 by lia.
    by split.
  - assert (Hcap : (length (OutputHandler.capture_plot plots p)
                    ≤ OutputHandler.max_plots)%nat).
    { rewrite capture_plot_cases by done.
      rewrite length_drop, length_app. simpl. lia. }
    destruct (IH _ Hcap) as [-> Hbound]. split; [|exact Hbound].
    rewrite capture_plot_cases by done.
    rewrite length_app, length_drop, !length_app. simpl length.
    destruct (decide (length plots + 1 ≤ OutputHandler.max_plots)%nat).
    + replace (length plots + 1 - OutputHandler.max_plots) with 0 by lia.
      rewrite drop_0, <- app_assoc. simpl. f_equal. lia.
    + replace (length plots + 1 - OutputHandler.max_plots) with 1 by lia.
      assert (Hdrop : drop 1 (plots ++ [p]) ++ new
                      = drop 1 (plots ++ p :: new)).
      { destruct plots; [simpl in *; unfold OutputHandler.max_plots in *; lia |].
        simpl. rewrite ?drop_0. by rewrite <- app_assoc. }
      rewrite Hdrop, drop_drop. f_equal. lia.
Qed.

Lemma captured_plots_keep_newest_witness :
  fold_left OutputHandler.capture_plot
    [[("id", VStr "new")]] (replicate 20 [("id", VStr "old")])
  = drop 1 (replicate 20 [("id", VStr "old")] ++ [[("id", VStr "new")]])
  ∧ (length (fold_left OutputHandler.capture_plot
               [[("id", VStr "new")]] (replicate 20 [("id", VStr "old")]))
     ≤ 20)%nat.
Proof.
  apply (captured_plots_keep_newest
           (replicate 20 [("id", VStr "old")]) [[("id", VStr "new")]]).
  vm_compute. lia.
Defined.

(** ** output_handler.py: [_serialize_value] on data *)

(** Induction over values that reaches into lists, tuples and
    dictionaries. *)
Lemma value_nested_ind (P : value → Prop) :
  P VNone →
  (∀ b, P (VBool b)) →
  (∀ z, P (VInt z)) →
  (∀ bits, P (VFloat bits)) →
  (∀ s, P (VStr s)) →
  (∀ items, Forall P items → P (VList items)) →
  (∀ items, Forall P items → P (VTuple items)) →
  (∀ items, Forall (fun kv => P kv.2) items → P (VDict items)) →
  (∀ name, P (VModule name)) →
  (∀ name, P (VBuiltin name)) →
  (∀ oid, P (VObject oid)) →
  ∀ v, P v.
Proof.
  intros HNone HBool HInt HFloat HStr HList HTuple HDict HModule HBuiltin
    HObject.
  fix IH 1. intros [ | b | z | bits | s | items | items | items
                   | name | name | oid ].
  - exact HNone.
  - apply HBool.
  - apply HInt.
  - apply HFloat.
  - apply HStr.
  - apply HList. induction items as [|x xs IHxs]; constructor;
      [apply IH | exact IHxs].
  - apply HTuple. induction items as [|x xs IHxs]; constructor;
      [apply IH | exact IHxs].
  - apply HDict. induction items as [|[k x] xs IHxs]; constructor;
      [apply IH | exact IHxs].
  - apply HModule.
  - apply HBuiltin.
  - apply HObject.
Qed.

Section WithPython.
Context `{Python}.

Lemma serialize_sequence_unfold (v : value) (items : list value) :
  v = VList items ∨ v = VTuple items →
  OutputHandler._serialize_value v
  = if bool_decide (100 < length items)%nat then
      preview ← value_entries items 10;
      Return [("type", VStr (py_type_name v));
              ("length", VInt (Z.of_nat (length items)));
              ("preview", VList preview);
              ("truncated", VBool true);
              ("size", VInt (py_getsizeof v))]
    else
      values ← value_entries items (length items);
      Return [("type", VStr (py_type_name v));
              ("value", VList values);
              ("size", VInt (py_getsizeof v))].
Proof.
  intros [-> | ->]; simpl;
    match goal with
    | |- context [?each items 10] =>
        assert (Heach : ∀ l n, each l n = value_entries l n);
        [ intros l; induction l as [|x l IHl]; intros [|n];
          try reflexivity; simpl; by rewrite IHl
        | by rewrite !Heach ]
    end.
Qed.

Lemma serialize_dict_unfold (items : list (string * value)) :
  OutputHandler._serialize_value (VDict items)
  = if bool_decide (50 < length items)%nat then
      preview ← dict_entries items 10;
      Return [("type", VStr (py_type_name (VDict items)));
              ("length", VInt (Z.of_nat (length items)));
              ("preview", VDict preview);
              ("keys", VList (map VStr (take 20 (Dict.keys items))));
              ("truncated", VBool true);
              ("size", VInt (py_getsizeof (VDict items)))]
    else
      values ← dict_entries items (length items);
      Return [("type", VStr (py_type_name (VDict items)));
              ("value", VDict values);
              ("size", VInt (py_getsizeof (VDict items)))].
Proof.
  simpl.
  match goal with
  | |- context [?each items 10] =>
      assert (Heach : ∀ l n, each l n = dict_entries l n);
      [ intros l; induction l as [|[k x] l IHl]; intros [|n];
        try reflexivity; simpl; by rewrite IHl
      | by rewrite !Heach ]
  end.
Qed.

Lemma value_entries_plain (l : list value) (limit : nat) :
  Forall (fun v =>
            plain v = true →
            OutputHandler._serialize_value v
            = Return [("type", VStr (py_type_name v));
                      ("value", as_lists v);
                      ("size", VInt (py_getsizeof v))]) l →
  forallb plain (take limit l) = true →
  value_entries l limit = Return (map as_lists (take limit l)).
Proof.
  revert limit. induction l as [|x l IH]; intros limit Hall Hplain.
  - by destruct limit.
  - destruct limit as [|limit]; [done |].
    apply Forall_cons in Hall as [Hx Hall].
    simpl in Hplain. apply andb_true_iff in Hplain as [Hpx Hpl].
    simpl. rewrite (Hx Hpx). simpl.
    rewrite (IH limit Hall Hpl). reflexivity.
Qed.

Lemma dict_entries_plain (l : list (string * value)) (limit : nat) :
  Forall (fun kv =>
            plain kv.2 = true →
            OutputHandler._serialize_value kv.2
            = Return [("type", VStr (py_type_name kv.2));
                      ("value", as_lists kv.2);
                      ("size", VInt (py_getsizeof kv.2))]) l →
  forallb (fun kv => match kv with (_, x) => plain x end) (take limit l)
  = true →
  dict_entries l limit
  = Return (map (fun kv => match kv with (k, x) => (k, as_lists x) end)
              (take limit l)).
Proof.
  revert limit. induction l as [|[k x] l IH]; intros limit Hall Hplain.
  - by destruct limit.
  - destruct limit as [|limit]; [done |].
    apply Forall_cons in Hall as [Hx Hall].
    simpl in Hplain. apply andb_true_iff in Hplain as [Hpx Hpl].
    simpl in *. rewrite (Hx Hpx). simpl.
    rewrite (IH limit Hall Hpl). reflexivity.
Qed.

Lemma serialize_plain (v : value) :
  plain v = true →
  OutputHandler._serialize_value v
  = Return [("type", VStr (py_type_name v));
            ("value", as_lists v);
            ("size", VInt (py_getsizeof v))].
Proof.
  induction v as [ | b | z | bits | s | items IH | items IH | items IH
                 | name | name | oid ] using value_nested_ind;
    intros Hplain; try reflexivity; try discriminate.
  - simpl in Hplain. apply andb_true_iff in Hplain as [Hlen Hitems].
    apply bool_decide_eq_true in Hlen.
    rewrite (serialize_sequence_unfold _ items) by (by left).
    rewrite bool_decide_eq_false_2 by lia.
    rewrite value_entries_plain; rewrite ?firstn_all; done.
  - simpl in Hplain. apply andb_true_iff in Hplain as [Hlen Hitems].
    apply bool_decide_eq_true in Hlen.
    rewrite (serialize_sequence_unfold _ items) by (by right).
    rewrite bool_decide_eq_false_2 by lia.
    rewrite value_entries_plain; rewrite ?firstn_all; done.
  - simpl in Hplain. apply andb_true_iff in Hplain as [Hlen Hitems].
    apply bool_decide_eq_true in Hlen.
    rewrite serialize_dict_unfold.
    rewrite bool_decide_eq_false_2 by lia.
    rewrite dict_entries_plain; rewrite ?firstn_all; done.
Qed.


End WithPython.




Lemma value_entries_missing `{Python} (pre post : list value) (x : value)
    (d : Dict.t value) (limit : nat) :
  forallb plain pre = true →
  OutputHandler._serialize_value x = Return d →
  Dict.get "value" d = None →
  (length pre < limit)%nat →
  value_entries (pre ++ x :: post) limit
  = Raise (OutputHandler.key_error "value").
Proof.
  revert limit. induction pre as [|y pre IH]; intros limit Hpre Hx Hd Hlimit.
  - destruct limit as [|limit]; [simpl in Hlimit; lia |].
    simpl. rewrite Hx. simpl. unfold OutputHandler.subscript.
    by rewrite Hd.
  - destruct limit as [|limit]; [simpl in Hlimit; lia |].
    simpl in Hpre. apply andb_true_iff in Hpre as [Hy Hpre].
    simpl. rewrite (serialize_plain y Hy). simpl.
    rewrite IH; [done | done | done | done | simpl in Hlimit; lia].
Qed.



(** ** output_handler.py: the order of the serialized names *)

Lemma keys_set_new {V : Type} (k : string) (v : V) (d : Dict.t V) :
  k ∉ Dict.keys d → Dict.keys (Dict.set k v d) = Dict.keys d ++ [k].
Proof.
  unfold Dict.keys. induction d as [|[k0 v0] d IH]; simpl; intros Hk; [done |].
  apply not_elem_of_cons in Hk as [Hne Hk].
  destruct (String.eqb_spec k k0); [done |]. simpl. by rewrite IH.
Qed.

Lemma serialize_items_order `{Python} (items : list (string * value))
    (serialized : Dict.t (Dict.t value)) :
  handler_succeeds items →
  dict_wf items →
  (∀ k, k ∈ Dict.keys items → k ∉ Dict.keys serialized) →
  ∃ out,
    OutputHandler.serialize_items items serialized = Return out
    ∧ Dict.keys out = Dict.keys serialized ++ Dict.keys items.
Proof.
  revert serialized.
  induction items as [|[name v] rest IH]; intros serialized Hok Hwf Hfresh.
  - exists serialized. by rewrite app_nil_r.
  - assert (Hrest : handler_succeeds rest).
    { intros n w e Hin. apply (Hok n w e). by right. }
    unfold dict_wf, Dict.keys in Hwf. simpl in Hwf.
    apply NoDup_cons in Hwf as [Hname Hwf].
    assert (Hnew : name ∉ Dict.keys serialized) by (apply Hfresh; left).
    assert (Hstep : ∀ d,
              ∃ out,
                OutputHandler.serialize_items rest (Dict.set name d serialized)
                = Return out
                ∧ Dict.keys out
                  = Dict.keys serialized ++ Dict.keys ((name, v) :: rest)).
    { intros d.
      destruct (IH (Dict.set name d serialized) Hrest Hwf) as (out & Hout & Hk).
      - intros k Hk Hin. apply keys_set in Hin as [-> | Hin]; [done |].
        apply (Hfresh k); [by right | done].
      - exists out. split; [done |].
        rewrite Hk, keys_set_new by done. by rewrite <- app_assoc. }
    simpl. destruct (OutputHandler._serialize_value v) as [d|e] eqn:E.
    + apply Hstep.
    + destruct (Hok name v e) as (-> & text & Htext); [by left | done |].
      unfold OutputHandler.error_info. rewrite Htext. simpl. apply Hstep.
Qed.

(** X12.  When the failure handler cannot fail, [serialize_variables]
    returns the names of its input in the order of the input, one entry for
    each. *)
Theorem serialized_names_in_order `{Python} (variables : Dict.t value) :
  handler_succeeds variables →
  dict_wf variables →
  ∃ serialized,
    OutputHandler.serialize_variables variables = Return serialized
    ∧ Dict.keys serialized = Dict.keys variables.
Proof.
  intros Hok Hwf. unfold OutputHandler.serialize_variables.
  destruct (serialize_items_order variables Dict.empty Hok Hwf)
    as (out & Hout & Hk).
  - intros k _ Hin. by apply elem_of_nil in Hin.
  - by exists out.
Qed.

Lemma serialized_names_in_order_witness :
  ∃ serialized,
    OutputHandler.serialize_variables (H := Example.interpreter None)
      [("b", VInt 1); ("a", VList [VObject 1])]
    = Return serialized
    ∧ Dict.keys serialized = ["b"; "a"].
Proof.
  apply (serialized_names_in_order (H := Example.interpreter None)
           [("b", VInt 1); ("a", VList [VObject 1])]).
  - intros name v e Hin Hraise.
    apply elem_of_cons in Hin as [[= -> ->] | Hin]; [discriminate |].
    apply list_elem_of_singleton in Hin as [= -> ->].
    vm_compute in Hraise. injection Hraise as <-.
    split; [reflexivity | by eexists].
  - apply NoDup_cons. split; [|apply NoDup_singleton].
    intros Hin. by apply list_elem_of_singleton in Hin.
Defined.

(** ** import_hook.py: [find_spec] *)

Section WithFinders.
Context `{Finders}.

(** One call of [find_spec], with its loop as [search_finders]. *)
Lemma find_spec_unfold (fuel : nat) (self : nat) (fullname : string)
    (path : option (list string)) (w : importing) :
  find_spec (S fuel) self fullname path w
  = match hooks w !! self with
    | None => None
    | Some h =>
        let h := count_attempt fullname h in
        let w := set_hook self h w in
        if bool_decide (max_imports h < import_count h)%nat then
          Some (w, Raise (import_limit_exceeded h))
        else if negb (is_module_allowed (hook_environment h) fullname) then
          Some (set_hook self (log_blocked fullname h) w,
                Raise (import_not_allowed fullname))
        else
          match Dict.get fullname (import_cache h) with
          | Some spec => Some (w, Return (Some spec))
          | None =>
              match search_finders
                      (fun oid w => find_spec fuel oid fullname path w)
                      self fullname path (chain w) w with
              | Some (w, Return (Some spec)) =>
                  match hooks w !! self with
                  | Some h =>
                      let spec := wrap_loader (hook_environment h) spec in
                      Some (set_hook self (cache_spec fullname spec h) w,
                            Return (Some spec))
                  | None => None
                  end
              | answer => answer
              end
          end
    end.
Proof.
  simpl. destruct (hooks w !! self) as [h|]; [|done].
  match goal with
  | |- context [(?search (chain w) (set_hook self _ w))] =>
      assert (Hsearch : ∀ finders w1,
                search finders w1
                = search_finders
                    (fun oid w => find_spec fuel oid fullname path w)
                    self fullname path finders w1)
  end.
  { intros finders. induction finders as [|[oid|name] rest IHrest];
      intros w1; [done | |].
    - simpl. rewrite !IHrest.
      destruct (bool_decide (oid = self)); [done |].
      by destruct (find_spec fuel oid fullname path w1) as [[? [[?|]|?]]|].
    - simpl. rewrite !IHrest.
      destruct (sys_has_find_spec name); [|done].
      by destruct (sys_find_spec name fullname path) as [[?|]|?]. }
  by rewrite Hsearch.
Qed.

Lemma search_all_decline
    (call : nat → importing → option (importing * outcome (option ModuleSpec)))
    (self : nat) (fullname : string) (path : option (list string))
    (finders : list finder) (w : importing) :
  only_hook self finders →
  all_decline fullname path finders →
  ∃ w',
    search_finders call self fullname path finders w = Some (w', Return None)
    ∧ chain w' = chain w
    ∧ hooks w' = hooks w
    ∧ consulted w' = consulted w ++ calls_of fullname finders.
Proof.
  revert w. induction finders as [|[oid|name] rest IH]; intros w Honly Hnone.
  - exists w. by rewrite app_nil_r.
  - assert (oid = self) as -> by (apply Honly; left).
    simpl. rewrite bool_decide_eq_true_2 by done.
    apply IH.
    + intros o Ho. apply Honly. by right.
    + intros n Hn. apply Hnone. by right.
  - assert (Honly' : only_hook self rest)
      by (intros o Ho; apply Honly; by right).
    assert (Hnone' : all_decline fullname path rest)
      by (intros n Hn; apply Hnone; by right).
    simpl. destruct (sys_has_find_spec name) eqn:Ehas; [|by apply IH].
    rewrite (Hnone name) by (done || left).
    destruct (IH (consult name fullname w) Honly' Hnone')
      as (w' & -> & Hc & Hh & Hcons).
    exists w'. repeat split; try done.
    rewrite Hcons. simpl. by rewrite <- app_assoc.
Qed.

Lemma search_found
    (call : nat → importing → option (importing * outcome (option ModuleSpec)))
    (self : nat) (fullname : string) (path : option (list string))
    (before after : list finder) (name : string) (spec : ModuleSpec)
    (w : importing) :
  only_hook self before →
  all_decline fullname path before →
  sys_has_find_spec name = true →
  sys_find_spec name fullname path = Return (Some spec) →
  ∃ w',
    search_finders call self fullname path
      (before ++ SystemFinder name :: after) w
    = Some (w', Return (Some spec))
    ∧ chain w' = chain w
    ∧ hooks w' = hooks w
    ∧ consulted w'
      = consulted w ++ calls_of fullname before ++ [(name, fullname)].
Proof.
  intros Honly Hnone Hhas Hfound. revert w Honly Hnone.
  induction before as [|[oid|n] rest IH]; intros w Honly Hnone.
  - simpl. rewrite Hhas, Hfound. by eexists.
  - assert (oid = self) as -> by (apply Honly; left).
    simpl. rewrite bool_decide_eq_true_2 by done.
    apply IH.
    + intros o Ho. apply Honly. by right.
    + intros m Hm. apply Hnone. by right.
  - assert (Honly' : only_hook self rest)
      by (intros o Ho; apply Honly; by right).
    assert (Hnone' : all_decline fullname path rest)
      by (intros m Hm; apply Hnone; by right).
    simpl. destruct (sys_has_find_spec n) eqn:Ehas; [|by apply IH].
    rewrite (Hnone n) by (done || left).
    destruct (IH (consult n fullname w) Honly' Hnone')
      as (w' & -> & Hc & Hh & Hcons).
    exists w'. repeat split; try done.
    rewrite Hcons. simpl. by rewrite <- app_assoc.
Qed.

(** X13.  A module that the hook's policy denies is refused with
    [ImportError] before any finder of the chain is asked: the attempt is
    counted and logged as attempted and as blocked, and the cache is left
    alone. *)
Theorem blocked_import_never_reaches_finders (fuel : nat) (self : nat)
    (fullname : string) (path : option (list string)) (w : importing)
    (h : hook_state) :
  hooks w !! self = Some h →
  (import_count h < max_imports h)%nat →
  is_module_allowed (hook_environment h) fullname = false →
  ∃ w' h',
    find_spec (S fuel) self fullname path w
    = Some (w', Raise (import_not_allowed fullname))
    ∧ consulted w' = consulted w
    ∧ chain w' = chain w
    ∧ hooks w' !! self = Some h'
    ∧ import_count h' = import_count h + 1
    ∧ attempted_imports h' = attempted_imports h ++ [fullname]
    ∧ blocked_imports h' = blocked_imports h ++ [fullname]
    ∧ import_cache h' = import_cache h.
Proof.
  intros Hself Hcount Hdenied. rewrite find_spec_unfold, Hself. simpl.
  rewrite bool_decide_eq_false_2 by lia. rewrite Hdenied. simpl.
  eexists _, _. split; [reflexivity |]. simpl.
  rewrite lookup_insert_eq. by repeat split.
Qed.

(** X14.  Once the counter has reached [max_imports], every further
    [find_spec] raises [ImportError], for an allowed or a cached module
    too; the attempt is still counted and logged, so the hook stays over
    the limit until [reset_counters]. *)
Theorem import_limit_refuses_everything (fuel : nat) (self : nat)
    (fullname : string) (path : option (list string)) (w : importing)
    (h : hook_state) :
  hooks w !! self = Some h →
  (max_imports h ≤ import_count h)%nat →
  ∃ w' h',
    find_spec (S fuel) self fullname path w
    = Some (w', Raise (import_limit_exceeded h))
    ∧ consulted w' = consulted w
    ∧ hooks w' !! self = Some h'
    ∧ (max_imports h' ≤ import_count h')%nat
    ∧ attempted_imports h' = attempted_imports h ++ [fullname]
    ∧ blocked_imports h' = blocked_imports h
    ∧ import_cache h' = import_cache h.
Proof.
  intros Hself Hcount. rewrite find_spec_unfold, Hself. simpl.
  rewrite bool_decide_eq_true_2 by lia.
  eexists _, _. split; [reflexivity |]. simpl.
  rewrite lookup_insert_eq. repeat split; try done. simpl. lia.
Qed.

(** X15.  When no finder of the chain knows an allowed module, [find_spec]
    returns [None] after asking each system finder once, in the order of
    the chain, and does not cache the miss. *)
Theorem unknown_module_not_cached (fuel : nat) (self : nat)
    (fullname : string) (path : option (list string)) (w : importing)
    (h : hook_state) :
  hooks w !! self = Some h →
  (import_count h < max_imports h)%nat →
  is_module_allowed (hook_environment h) fullname = true →
  Dict.get fullname (import_cache h) = None →
  only_hook self (chain w) →
  all_decline fullname path (chain w) →
  ∃ w',
    find_spec (S fuel) self fullname path w = Some (w', Return None)
    ∧ consulted w' = consulted w ++ calls_of fullname (chain w)
    ∧ hooks w' !! self = Some (count_attempt fullname h).
Proof.
  intros Hself Hcount Hallowed Hmiss Honly Hnone.
  rewrite find_spec_unfold, Hself. simpl.
  rewrite bool_decide_eq_false_2 by lia. rewrite Hallowed, Hmiss. simpl.
  destruct (search_all_decline
              (fun oid w0 => find_spec fuel oid fullname path w0)
              self fullname path (chain w)
              (set_hook self (count_attempt fullname h) w) Honly Hnone)
    as (w' & -> & Hc & Hh & Hcons).
  exists w'. split; [done |]. split; [done |].
  rewrite Hh. simpl. by rewrite lookup_insert_eq.
Qed.

Lemma find_spec_found (fuel : nat) (self : nat)
    (fullname : string) (path : option (list string)) (w : importing)
    (h : hook_state) (before after : list finder) (name : string)
    (spec : ModuleSpec) :
  hooks w !! self = Some h →
  (import_count h < max_imports h)%nat →
  is_module_allowed (hook_environment h) fullname = true →
  Dict.get fullname (import_cache h) = None →
  chain w = before ++ SystemFinder name :: after →
  only_hook self before →
  all_decline fullname path before →
  sys_has_find_spec name = true →
  sys_find_spec name fullname path = Return (Some spec) →
  let wrapped := wrap_loader (hook_environment h) spec in
  ∃ w',
    find_spec (S fuel) self fullname path w
    = Some (w', Return (Some wrapped))
    ∧ chain w' = chain w
    ∧ consulted w'
      = consulted w ++ calls_of fullname before ++ [(name, fullname)]
    ∧ hooks w' !! self
      = Some (cache_spec fullname wrapped (count_attempt fullname h)).
Proof.
  intros Hself Hcount Hallowed Hmiss Hchain Honly Hnone Hhas Hfound wrapped.
  rewrite find_spec_unfold, Hself. simpl.
  rewrite bool_decide_eq_false_2 by lia. rewrite Hallowed, Hmiss. simpl.
  rewrite Hchain.
  destruct (search_found
              (fun oid w0 => find_spec fuel oid fullname path w0)
              self fullname path before after name spec
              (set_hook self (count_attempt fullname h) w)
              Honly Hnone Hhas Hfound)
    as (w' & -> & Hc & Hh & Hcons).
  rewrite Hh. simpl. rewrite lookup_insert_eq.
  eexists. split; [reflexivity |]. simpl.
  rewrite Hc, Hh. simpl. rewrite insert_insert_eq, lookup_insert_eq.
  by rewrite Hchain.
Qed.

Lemma find_spec_cached (fuel : nat) (self : nat)
    (fullname : string) (path : option (list string)) (w : importing)
    (h : hook_state) (spec : ModuleSpec) :
  hooks w !! self = Some h →
  (import_count h < max_imports h)%nat →
  is_module_allowed (hook_environment h) fullname = true →
  Dict.get fullname (import_cache h) = Some spec →
  find_spec (S fuel) self fullname path w
  = Some (set_hook self (count_attempt fullname h) w, Return (Some spec)).
Proof.
  intros Hself Hcount Hallowed Hhit.
  rewrite find_spec_unfold, Hself. simpl.
  rewrite bool_decide_eq_false_2 by lia. by rewrite Hallowed, Hhit.
Qed.

(** X16.  The first system finder of the chain that knows an allowed module
    decides: the finders after it are not asked, the loader of its spec is
    wrapped with the hook's environment, and the wrapped spec is what the
    hook returns and caches under the module name. *)
Theorem first_answer_is_wrapped_and_cached (fuel : nat) (self : nat)
    (fullname : string) (path : option (list string)) (w : importing)
    (h : hook_state) (before after : list finder) (name : string)
    (spec : ModuleSpec) :
  hooks w !! self = Some h →
  (import_count h < max_imports h)%nat →
  is_module_allowed (hook_environment h) fullname = true →
  Dict.get fullname (import_cache h) = None →
  chain w = before ++ SystemFinder name :: after →
  only_hook self before →
  all_decline fullname path before →
  sys_has_find_spec name = true →
  sys_find_spec name fullname path = Return (Some spec) →
  ∃ w' h',
    find_spec (S fuel) self fullname path w
    = Some (w', Return (Some (wrap_loader (hook_environment h) spec)))
    ∧ consulted w'
      = consulted w ++ calls_of fullname before ++ [(name, fullname)]
    ∧ hooks w' !! self = Some h'
    ∧ Dict.get fullname (import_cache h')
      = Some (wrap_loader (hook_environment h) spec)
    ∧ Dict.keys (import_cache h')
      = Dict.keys (import_cache h) ++ [fullname].
Proof.
  intros Hself Hcount Hallowed Hmiss Hchain Honly Hnone Hhas Hfound.
  destruct (find_spec_found fuel self fullname path w h before after name
              spec Hself Hcount Hallowed Hmiss Hchain Honly Hnone Hhas Hfound)
    as (w' & Hcall & _ & Hcons & Hh).
  eexists _, _. split; [exact Hcall |]. split; [exact Hcons |].
  split; [exact Hh |]. simpl. split.
  - apply get_set_eq.
  - apply keys_set_new. by apply get_None_keys.
Qed.

(** X17.  A module resolved once is served from the cache afterwards: the
    second [find_spec], whatever [path] it is given, returns the same spec
    without asking any finder, and still counts as an attempt. *)
Theorem second_lookup_served_from_cache (fuel fuel' : nat) (self : nat)
    (fullname : string) (path path' : option (list string)) (w : importing)
    (h : hook_state) (before after : list finder) (name : string)
    (spec : ModuleSpec) :
  hooks w !! self = Some h →
  (import_count h + 1 < max_imports h)%nat →
  is_module_allowed (hook_environment h) fullname = true →
  Dict.get fullname (import_cache h) = None →
  chain w = before ++ SystemFinder name :: after →
  only_hook self before →
  all_decline fullname path before →
  sys_has_find_spec name = true →
  sys_find_spec name fullname path = Return (Some spec) →
  ∃ w1 w2 cached h2,
    find_spec (S fuel) self fullname path w = Some (w1, Return (Some cached))
    ∧ find_spec (S fuel') self fullname path' w1
      = Some (w2, Return (Some cached))
    ∧ consulted w2 = consulted w1
    ∧ hooks w2 !! self = Some h2
    ∧ import_count h2 = import_count h + 2
    ∧ attempted_imports h2 = attempted_imports h ++ [fullname; fullname]
    ∧ import_cache h2 = Dict.set fullname cached (import_cache h).
Proof.
  intros Hself Hcount Hallowed Hmiss Hchain Honly Hnone Hhas Hfound.
  assert (Hcount1 : (import_count h < max_imports h)%nat) by lia.
  destruct (find_spec_found fuel self fullname path w h before after name
              spec Hself Hcount1 Hallowed Hmiss Hchain Honly Hnone Hhas Hfound)
    as (w1 & Hcall & _ & _ & Hh).
  eexists w1, _, _, _. split; [exact Hcall |].
  rewrite (find_spec_cached fuel' self fullname path' w1 _
             (wrap_loader (hook_environment h) spec) Hh);
    [| simpl; lia | exact Hallowed | apply get_set_eq ].
  split; [reflexivity |]. simpl. rewrite lookup_insert_eq.
  repeat split; simpl; [lia |].
  by rewrite <- app_assoc.
Qed.

Lemma hook_consistent_count_attempt (fullname : string) (h : hook_state) :
  hook_consistent h → hook_consistent (count_attempt fullname h).
Proof.
  intros [Hcount Hsub]. split; simpl.
  - rewrite length_app. simpl. lia.
  - by apply sublist_inserts_r.
Qed.

Lemma hook_consistent_log_blocked (fullname : string) (h : hook_state) :
  hook_consistent h →
  hook_consistent (log_blocked fullname (count_attempt fullname h)).
Proof.
  intros [Hcount Hsub]. split; simpl.
  - rewrite length_app. simpl. lia.
  - by apply sublist_app.
Qed.

Lemma hooks_consistent_set_hook (oid : nat) (h : hook_state) (w : importing) :
  hooks_consistent w → hook_consistent h →
  hooks_consistent (set_hook oid h w).
Proof.
  intros Hw Hh oid' h'. simpl. intros Hlook.
  apply lookup_insert_Some in Hlook as [[_ <-] | [_ Hlook]]; [done |].
  by apply (Hw oid').
Qed.

Lemma search_finders_consistent
    (call : nat → importing → option (importing * outcome (option ModuleSpec)))
    (self : nat) (fullname : string) (path : option (list string)) :
  (∀ oid w w' r,
     hooks_consistent w → call oid w = Some (w', r) → hooks_consistent w') →
  ∀ finders w w' r,
    hooks_consistent w →
    search_finders call self fullname path finders w = Some (w', r) →
    hooks_consistent w'.
Proof.
  intros Hcall finders.
  induction finders as [|[oid|name] rest IH]; intros w w' r Hw; simpl.
  - by intros [= <- <-].
  - destruct (bool_decide (oid = self)); [by apply IH |].
    destruct (call oid w) as [[w1 r1]|] eqn:Ecall; [|done].
    assert (Hw1 : hooks_consistent w1) by (by apply (Hcall oid w w1 r1)).
    destruct r1 as [[spec|]|e].
    + by intros [= <- <-].
    + by apply IH.
    + by intros [= <- <-].
  - destruct (sys_has_find_spec name); [|by apply IH].
    destruct (sys_find_spec name fullname path) as [[spec|]|e].
    + by intros [= <- <-].
    + by apply IH.
    + by intros [= <- <-].
Qed.

Lemma find_spec_consistent (fuel : nat) :
  ∀ self fullname path w w' r,
    hooks_consistent w →
    find_spec fuel self fullname path w = Some (w', r) →
    hooks_consistent w'.
Proof.
  induction fuel as [|fuel IH]; intros self fullname path w w' r Hw;
    [done |].
  rewrite find_spec_unfold.
  destruct (hooks w !! self) as [h|] eqn:Eself; [|done].
  assert (Hh : hook_consistent h) by (by apply (Hw self)).
  assert (Hw1 : hooks_consistent
                  (set_hook self (count_attempt fullname h) w))
    by (by apply hooks_consistent_set_hook,
             hook_consistent_count_attempt).
  cbv zeta.
  destruct (bool_decide _); [by intros [= <- <-] |].
  destruct (negb _).
  { intros [= <- <-].
    by apply hooks_consistent_set_hook, hook_consistent_log_blocked. }
  destruct (Dict.get _ _) as [spec|]; [by intros [= <- <-] |].
  destruct (search_finders _ _ _ _ _ _) as [[w2 r2]|] eqn:Esearch; [|done].
  assert (Hw2 : hooks_consistent w2).
  { eapply search_finders_consistent; [| exact Hw1 | exact Esearch].
    intros oid w0 w0' r0. apply IH. }
  destruct r2 as [[spec|]|e]; [| by intros [= <- <-] | by intros [= <- <-]].
  destruct (hooks w2 !! self) as [h2|] eqn:Eself2; [|done].
  intros [= <- <-]. apply hooks_consistent_set_hook; [done |].
  destruct (Hw2 self h2 Eself2) as [Hcount Hsub]. by split.
Qed.

(** X18.  [find_spec] keeps the bookkeeping of every hook on the chain in
    step, whatever it answers and however the hooks call one another: the
    counter is the number of logged attempts and the blocked names are
    among the attempted ones, so that [get_import_stats] reports
    [total_attempts] equal to the counter and an [allowed_count] that is
    not negative. *)
Theorem import_statistics_stay_consistent (fuel : nat) (self : nat)
    (fullname : string) (path : option (list string)) (w w' : importing)
    (r : outcome (option ModuleSpec)) :
  hooks_consistent w →
  find_spec fuel self fullname path w = Some (w', r) →
  hooks_consistent w'
  ∧ ∀ oid h, hooks w' !! oid = Some h →
      total_attempts (get_import_stats h) = import_count h
      ∧ (blocked_count (get_import_stats h)
         ≤ total_attempts (get_import_stats h))%nat
      ∧ (0 ≤ allowed_count (get_import_stats h))%Z.
Proof.
  intros Hw Hcall.
  assert (Hw' : hooks_consistent w')
    by (by apply (find_spec_consistent fuel self fullname path w w' r)).
  split; [done |]. intros oid h Hlook.
  destruct (Hw' oid h Hlook) as [Hcount Hsub].
  apply sublist_length in Hsub. simpl. lia.
Qed.

Lemma two_hooks_loop (fuel : nat) :
  ∀ (self other : nat) (fullname : string) (path : option (list string))
    (w : importing) (a b : nat) (rest : list finder) (hs ho : hook_state),
    a ≠ b →
    (self = a ∧ other = b) ∨ (self = b ∧ other = a) →
    chain w = ImportHook a :: ImportHook b :: rest →
    hooks w !! self = Some hs →
    hooks w !! other = Some ho →
    Dict.get fullname (import_cache hs) = None →
    Dict.get fullname (import_cache ho) = None →
    ((max_imports hs + 1 - import_count hs)
     + (max_imports ho + 1 - import_count ho) < fuel)%nat →
    ∃ w' e,
      find_spec fuel self fullname path w = Some (w', Raise e)
      ∧ exc_type e = ImportError
      ∧ consulted w' = consulted w.
Proof.
  induction fuel as [|fuel IH];
    intros self other fullname path w a b rest hs ho Hab Hwho Hchain
      Hself Hother Hmiss_s Hmiss_o Hfuel; [lia |].
  rewrite find_spec_unfold, Hself. cbv zeta.
  destruct (bool_decide _) eqn:Elimit; [by eexists _, _ |].
  apply bool_decide_eq_false in Elimit. simpl in Elimit.
  destruct (negb _); [by eexists _, _ |].
  simpl (import_cache _). rewrite Hmiss_s.
  assert (Hneq : self ≠ other) by (destruct Hwho as [[-> ->]|[-> ->]]; done).
  set (w1 := set_hook self (count_attempt fullname hs) w).
  assert (Hinner : ∃ w' e,
             find_spec fuel other fullname path w1 = Some (w', Raise e)
             ∧ exc_type e = ImportError
             ∧ consulted w' = consulted w).
  { apply (IH other self fullname path w1 a b rest ho
             (count_attempt fullname hs)); try done.
    - destruct Hwho as [[-> ->]|[-> ->]]; [by right | by left].
    - unfold w1. simpl. by rewrite lookup_insert_ne.
    - unfold w1. simpl. by rewrite lookup_insert_eq.
    - simpl. lia. }
  destruct Hinner as (w' & e & Hcall & Herr & Hcons).
  exists w', e. split; [| done].
  simpl (chain _). rewrite Hchain.
  destruct Hwho as [[-> ->]|[-> ->]]; simpl.
  - rewrite bool_decide_eq_true_2 by done.
    rewrite bool_decide_eq_false_2 by done.
    fold w1. by rewrite Hcall.
  - rewrite bool_decide_eq_false_2 by done.
    fold w1. by rewrite Hcall.
Qed.

(** X19.  With two hooks at the head of the chain, as two calls of
    [patch_import_system] leave them, a module that neither hook has cached
    cannot be resolved: each hook hands the request to the other until one
    of them refuses with [ImportError], and no system finder is ever
    asked. *)
Theorem two_hooks_never_reach_system_finders (self : nat)
    (fullname : string) (path : option (list string)) (w : importing)
    (a b : nat) (rest : list finder) (ha hb : hook_state) :
  a ≠ b →
  self = a ∨ self = b →
  chain w = ImportHook a :: ImportHook b :: rest →
  hooks w !! a = Some ha →
  hooks w !! b = Some hb →
  Dict.get fullname (import_cache ha) = None →
  Dict.get fullname (import_cache hb) = None →
  ∃ enough, ∀ fuel, (enough ≤ fuel)%nat →
    ∃ w' e,
      find_spec fuel self fullname path w = Some (w', Raise e)
      ∧ exc_type e = ImportError
      ∧ consulted w' = consulted w.
Proof.
  intros Hab Hself Hchain Ha Hb Hmiss_a Hmiss_b.
  exists (S ((max_imports ha + 1 - import_count ha)
             + (max_imports hb + 1 - import_count hb))).
  intros fuel Hfuel. destruct Hself as [-> | ->].
  - apply (two_hooks_loop fuel a b fullname path w a b rest ha hb);
      first [done | lia | by left].
  - apply (two_hooks_loop fuel b a fullname path w a b rest hb ha);
      first [done | lia | by right].
Qed.

End WithFinders.

(** Instances on the example chain. *)

Lemma blocked_import_never_reaches_finders_witness :
  ∃ w' h',
    find_spec (H := ExampleImport.finders) 1 0 "os" None
      ExampleImport.one_hook
    = Some (w', Raise (import_not_allowed "os"))
    ∧ consulted w' = []
    ∧ chain w' = chain ExampleImport.one_hook
    ∧ hooks w' !! 0 = Some h'
    ∧ import_count h' = 1
    ∧ attempted_imports h' = ["os"]
    ∧ blocked_imports h' = ["os"]
    ∧ import_cache h' = [].
Proof.
  apply (blocked_import_never_reaches_finders (H := ExampleImport.finders)
           0 0 "os" None ExampleImport.one_hook
           (ImportHook_init (fun _ => true)));
    [reflexivity | vm_compute; lia | reflexivity].
Defined.

Lemma unknown_module_not_cached_witness :
  ∃ w',
    find_spec (H := ExampleImport.finders) 1 0 "scipy" None
      ExampleImport.one_hook
    = Some (w', Return None)
    ∧ consulted w'
      = [("BuiltinImporter", "scipy"); ("FrozenImporter", "scipy");
         ("PathFinder", "scipy")]
    ∧ hooks w' !! 0
      = Some (count_attempt "scipy" (ImportHook_init (fun _ => true))).
Proof.
  apply (unknown_module_not_cached (H := ExampleImport.finders)
           0 0 "scipy" None ExampleImport.one_hook
           (ImportHook_init (fun _ => true)));
    [reflexivity | vm_compute; lia | reflexivity | reflexivity | |].
  - intros oid Hin.
    apply elem_of_cons in Hin as [[= ->] | Hin]; [done |].
    repeat (apply elem_of_cons in Hin as [Hin | Hin]; [discriminate |]).
    by apply elem_of_nil in Hin.
  - intros name Hin _.
    apply elem_of_cons in Hin as [Hin | Hin]; [discriminate |].
    repeat (apply elem_of_cons in Hin as [[= ->] | Hin]; [reflexivity |]).
    by apply elem_of_nil in Hin.
Defined.

Lemma import_limit_refuses_everything_witness :
  ∃ w' h',
    find_spec (H := ExampleImport.finders) 1 0 "math" None
      ExampleImport.spent
    = Some (w', Raise {| exc_type := ImportError;
                         exc_message := "Import limit exceeded: 100" |})
    ∧ consulted w' = []
    ∧ hooks w' !! 0 = Some h'
    ∧ (max_imports h' ≤ import_count h')%nat
    ∧ attempted_imports h' = replicate 100 "math" ++ ["math"]
    ∧ blocked_imports h' = []
    ∧ import_cache h' = [].
Proof.
  apply (import_limit_refuses_everything (H := ExampleImport.finders)
           0 0 "math" None ExampleImport.spent ExampleImport.spent_hook);
    [reflexivity | simpl; lia].
Defined.

Lemma example_only_hook :
  only_hook 0 [ImportHook 0; SystemFinder "BuiltinImporter";
               SystemFinder "FrozenImporter"].
Proof.
  intros oid Hin.
  apply elem_of_cons in Hin as [[= ->] | Hin]; [done |].
  repeat (apply elem_of_cons in Hin as [Hin | Hin]; [discriminate |]).
  by apply elem_of_nil in Hin.
Qed.

Lemma example_all_decline :
  all_decline (H := ExampleImport.finders) "json" None
    [ImportHook 0; SystemFinder "BuiltinImporter";
     SystemFinder "FrozenImporter"].
Proof.
  intros name Hin _.
  apply elem_of_cons in Hin as [Hin | Hin]; [discriminate |].
  repeat (apply elem_of_cons in Hin as [[= ->] | Hin]; [reflexivity |]).
  by apply elem_of_nil in Hin.
Qed.

Lemma first_answer_is_wrapped_and_cached_witness :
  ∃ w' h',
    find_spec (H := ExampleImport.finders) 1 0 "json" None
      ExampleImport.one_hook
    = Some (w', Return (Some
        {| spec_name := "json";
           spec_loader :=
             Some (SandboxModuleLoader "json"
                     (new_environment (fun _ => true))
                     (Some (SystemLoader "PathFinder"))) |}))
    ∧ consulted w'
      = [("BuiltinImporter", "json"); ("FrozenImporter", "json");
         ("PathFinder", "json")]
    ∧ hooks w' !! 0 = Some h'
    ∧ Dict.get "json" (import_cache h')
      = Some {| spec_name := "json";
                spec_loader :=
                  Some (SandboxModuleLoader "json"
                          (new_environment (fun _ => true))
                          (Some (SystemLoader "PathFinder"))) |}
    ∧ Dict.keys (import_cache h') = ["json"].
Proof.
  apply (first_answer_is_wrapped_and_cached (H := ExampleImport.finders)
           0 0 "json" None ExampleImport.one_hook
           (ImportHook_init (fun _ => true))
           [ImportHook 0; SystemFinder "BuiltinImporter";
            SystemFinder "FrozenImporter"] [] "PathFinder"
           {| spec_name := "json";
              spec_loader := Some (SystemLoader "PathFinder") |});
    [ reflexivity | simpl; lia | reflexivity | reflexivity | reflexivity
    | exact example_only_hook | exact example_all_decline
    | reflexivity | reflexivity ].
Defined.

Lemma second_lookup_served_from_cache_witness :
  ∃ w1 w2 cached h2,
    find_spec (H := ExampleImport.finders) 1 0 "json" None
      ExampleImport.one_hook
    = Some (w1, Return (Some cached))
    ∧ find_spec (H := ExampleImport.finders) 1 0 "json" (Some ["/tmp"]) w1
      = Some (w2, Return (Some cached))
    ∧ consulted w2 = consulted w1
    ∧ hooks w2 !! 0 = Some h2
    ∧ import_count h2 = 2
    ∧ attempted_imports h2 = ["json"; "json"]
    ∧ import_cache h2 = Dict.set "json" cached [].
Proof.
  apply (second_lookup_served_from_cache (H := ExampleImport.finders)
           0 0 0 "json" None (Some ["/tmp"]) ExampleImport.one_hook
           (ImportHook_init (fun _ => true))
           [ImportHook 0; SystemFinder "BuiltinImporter";
            SystemFinder "FrozenImporter"] [] "PathFinder"
           {| spec_name := "json";
              spec_loader := Some (SystemLoader "PathFinder") |});
    [ reflexivity | simpl; lia | reflexivity | reflexivity | reflexivity
    | exact example_only_hook | exact example_all_decline
    | reflexivity | reflexivity ].
Defined.

Lemma example_hooks_consistent : hooks_consistent ExampleImport.one_hook.
Proof.
  intros oid h. unfold ExampleImport.one_hook. simpl. intros Hlook.
  apply lookup_singleton_Some in Hlook as [_ <-].
  split; [done | apply sublist_nil].
Qed.

Lemma import_statistics_stay_consistent_witness :
  ∃ w' r,
    find_spec (H := ExampleImport.finders) 1 0 "json" None
      ExampleImport.one_hook
    = Some (w', r)
    ∧ hooks_consistent w'
    ∧ ∀ oid h, hooks w' !! oid = Some h →
        total_attempts (get_import_stats h) = import_count h
        ∧ (blocked_count (get_import_stats h)
           ≤ total_attempts (get_import_stats h))%nat
        ∧ (0 ≤ allowed_count (get_import_stats h))%Z.
Proof.
  eexists _, _. split; [reflexivity |].
  eapply (import_statistics_stay_consistent (H := ExampleImport.finders)
            1 0 "json" None ExampleImport.one_hook);
    [exact example_hooks_consistent | reflexivity].
Defined.

Lemma two_hooks_never_reach_system_finders_witness :
  ∃ enough, ∀ fuel, (enough ≤ fuel)%nat →
    ∃ w' e,
      find_spec (H := ExampleImport.finders) fuel 1 "json" None
        ExampleImport.two_hooks
      = Some (w', Raise e)
      ∧ exc_type e = ImportError
      ∧ consulted w' = [].
Proof.
  apply (two_hooks_never_reach_system_finders (H := ExampleImport.finders)
           1 "json" None ExampleImport.two_hooks 1 0
           ExampleImport.system_chain
           (ImportHook_init (fun _ => true))
           (ImportHook_init (fun _ => true)));
    [ done | by left | reflexivity | reflexivity | reflexivity
    | reflexivity | reflexivity ].
Defined.


(** ** import_hook.py: [SandboxModuleLoader.exec_module] *)

Lemma namespace_set_namespace (m : nat) (d : Dict.t value)
    (store : gmap nat module) :
  is_Some (store !! m) → namespace m (set_namespace m d store) = d.
Proof.
  intros [object Hobject]. unfold namespace, set_namespace.
  by rewrite lookup_alter_eq, Hobject.
Qed.

Lemma set_namespace_other (m o : nat) (d : Dict.t value)
    (store : gmap nat module) :
  o ≠ m → set_namespace m d store !! o = store !! o.
Proof.
  intros Hne. unfold set_namespace. by rewrite lookup_alter_ne.
Qed.

Lemma set_namespace_is_Some (m o : nat) (d : Dict.t value)
    (store : gmap nat module) :
  is_Some (set_namespace m d store !! o) ↔ is_Some (store !! o).
Proof.
  unfold set_namespace. destruct (decide (o = m)) as [-> | Hne].
  - rewrite lookup_alter_eq. by rewrite fmap_is_Some.
  - by rewrite lookup_alter_ne.
Qed.

Lemma filtered_module_wf (env : SandboxEnvironment) (object : module)
    (module_name : string) (allowed_attrs : list string) :
  get_allowed_attributes env module_name = Some allowed_attrs →
  dict_wf (module_dict (filter_module_attributes env object module_name)).
Proof.
  intros Hattrs. unfold filter_module_attributes. rewrite Hattrs.
  assert (Hfresh : dict_wf (module_dict (ModuleType module_name))).
  { unfold dict_wf. simpl. apply (bool_decide_unpack _). by vm_compute. }
  clear Hattrs. revert Hfresh. generalize (ModuleType module_name).
  induction allowed_attrs as [|a attrs IH]; intros acc Hacc; [done |].
  cbn [fold_left]. apply IH.
  destruct (Dict.get a (module_dict object)); [|done].
  simpl. by apply set_wf.
Qed.

Section WithLoaders.
Context `{Loaders}.

(** X20.  For a module whose entry in the allow table is the wildcard, or
    that has no entry of its own, [filter_module_attributes] returns the
    module itself, so that clearing its namespace and updating it from the
    filtered one leaves the module with no attribute at all, whatever the
    original loader had bound. *)
Theorem unrestricted_module_is_emptied (spec_name : string)
    (environment : SandboxEnvironment) (original : loader) (m : nat)
    (store loaded : gmap nat module) :
  get_allowed_attributes environment spec_name = None →
  has_exec_module original = true →
  exec_module original m store = (loaded, Return tt) →
  ∃ store',
    exec_module (SandboxModuleLoader spec_name environment (Some original))
      m store
    = (store', Return tt)
    ∧ namespace m store' = []
    ∧ ∀ o, o ≠ m → store' !! o = loaded !! o.
Proof.
  intros Hattrs Hhas Hload. cbn [exec_module]. rewrite Hhas, Hload.
  unfold filter_module_object. rewrite Hattrs.
  eexists. split; [reflexivity |]. split.
  - destruct (loaded !! m) as [object|] eqn:Eobject.
    + assert (Hm : is_Some (loaded !! m)) by (by eexists).
      assert (Hm' : is_Some (set_namespace m [] loaded !! m))
        by (by apply set_namespace_is_Some).
      by rewrite !namespace_set_namespace.
    + unfold namespace, set_namespace.
      by rewrite !lookup_alter_eq, Eobject.
  - intros o Hne. by rewrite !set_namespace_other.
Qed.

(** X21.  For a module with a restricted entry, the namespace that
    [exec_module] leaves is that of a fresh module of the spec's name with
    the allowed attributes the loaded module had: every other binding of the
    loaded module is gone, and the five attributes of a fresh module are
    reset. *)
Theorem restricted_module_is_rebuilt (spec_name : string)
    (environment : SandboxEnvironment) (original : loader) (m : nat)
    (store loaded : gmap nat module) (object : module)
    (allowed_attrs : list string) (a : string) :
  get_allowed_attributes environment spec_name = Some allowed_attrs →
  has_exec_module original = true →
  exec_module original m store = (loaded, Return tt) →
  loaded !! m = Some object →
  ∃ store',
    exec_module (SandboxModuleLoader spec_name environment (Some original))
      m store
    = (store', Return tt)
    ∧ Dict.get a (namespace m store')
      = if bool_decide (a ∈ allowed_attrs
                        ∧ is_Some (Dict.get a (module_dict object)))
        then Dict.get a (module_dict object)
        else Dict.get a (module_dict (ModuleType spec_name)).
Proof.
  intros Hattrs Hhas Hload Hobject. cbn [exec_module]. rewrite Hhas, Hload.
  unfold filter_module_object. rewrite Hattrs, Hobject.
  eexists. split; [reflexivity |].
  set (filtered_module := fresh (dom loaded)).
  assert (Hfresh : filtered_module ≠ m).
  { intros Heq. apply (is_fresh (dom loaded)). fold filtered_module.
    rewrite Heq. apply elem_of_dom. by eexists. }
  set (stored := <[filtered_module :=
                     filter_module_attributes environment object spec_name]>
                   loaded).
  assert (Hm : is_Some (stored !! m)).
  { unfold stored. rewrite lookup_insert_ne by done. by eexists. }
  assert (Hm' : is_Some (set_namespace m [] stored !! m))
    by (by apply set_namespace_is_Some).
  rewrite !namespace_set_namespace by done.
  assert (Hfiltered :
            namespace filtered_module (set_namespace m [] stored)
            = module_dict
                (filter_module_attributes environment object spec_name)).
  { unfold namespace. rewrite set_namespace_other by done.
    unfold stored. by rewrite lookup_insert_eq. }
  rewrite Hfiltered.
  rewrite get_update by (by eapply filtered_module_wf).
  rewrite (filter_module_get environment object spec_name allowed_attrs a
             Hattrs).
  by destruct (bool_decide _); [destruct (Dict.get a (module_dict object)) |
    destruct (Dict.get a (module_dict (ModuleType spec_name)))].
Qed.

End WithLoaders.

Lemma unrestricted_module_is_emptied_witness :
  ∃ store',
    exec_module (H := ExampleLoad.loaders)
      (SandboxModuleLoader "math" default_environment
         (Some (SystemLoader "ExtensionFileLoader")))
      0 ExampleLoad.store
    = (store', Return tt)
    ∧ namespace 0 store' = []
    ∧ ∀ o, o ≠ 0 →
        store' !! o
        = (exec_module (H := ExampleLoad.loaders)
             (SystemLoader "ExtensionFileLoader") 0 ExampleLoad.store).1
          !! o.
Proof.
  apply (unrestricted_module_is_emptied (H := ExampleLoad.loaders)
           "math" default_environment (SystemLoader "ExtensionFileLoader")
           0 ExampleLoad.store);
    [reflexivity | reflexivity | vm_compute; reflexivity].
Defined.

Lemma restricted_module_is_rebuilt_witness :
  ∃ store',
    exec_module (H := ExampleLoad.loaders)
      (SandboxModuleLoader "json" default_environment
         (Some (SystemLoader "SourceFileLoader")))
      0 ExampleLoad.store
    = (store', Return tt)
    ∧ Dict.get "load" (namespace 0 store') = None.
Proof.
  apply (restricted_module_is_rebuilt (H := ExampleLoad.loaders)
           "json" default_environment (SystemLoader "SourceFileLoader")
           0 ExampleLoad.store
           (exec_module (H := ExampleLoad.loaders)
              (SystemLoader "SourceFileLoader") 0 ExampleLoad.store).1
           (sys_exec_module (Loaders := ExampleLoad.loaders)
              "SourceFileLoader" (ModuleType "m")).1
           ["loads"; "dumps"] "load");
    [reflexivity | reflexivity | vm_compute; reflexivity
    | vm_compute; reflexivity].
Defined.

(** ** sandbox_env.py: [validate_code_safety] *)

Lemma strip_prefix_app (p s : string) : strip_prefix p (p +:+ s) = Some s.
Proof.
  induction p as [|c p IH]; [by destruct s |].
  rewrite append_cons. simpl. by rewrite Ascii.eqb_refl.
Qed.

Lemma strip_prefix_Some (p s r : string) :
  strip_prefix p s = Some r → s = p +:+ r.
Proof.
  revert s. induction p as [|c p IH]; intros s; simpl.
  - by intros [= ->].
  - destruct s as [|d s]; [done |].
    destruct (Ascii.eqb_spec c d) as [-> | _]; [|done].
    intros Hr. rewrite append_cons. f_equal. by apply IH.
Qed.

Lemma span_app (class : ascii → bool) (s taken others : string) :
  span class s = (taken, others) → s = taken +:+ others.
Proof.
  revert taken others. induction s as [|c s IH]; intros taken others; simpl.
  - by intros [= <- <-].
  - destruct (class c).
    + destruct (span class s) as [t o]. intros [= <- <-].
      rewrite append_cons. f_equal. by apply IH.
    + by intros [= <- <-].
Qed.

Lemma span_full_app (class : ascii → bool) (a b : string) :
  span class a = (a, "") →
  (∀ c r, b = String c r → class c = false) →
  span class (a +:+ b) = (a, b).
Proof.
  intros Ha Hb. induction a as [|c a IH].
  - change ("" +:+ b) with b. destruct b as [|c r]; [done |].
    simpl. by rewrite (Hb c r).
  - rewrite append_cons. simpl in *. destruct (class c); [|done].
    destruct (span class a) as [t o]. injection Ha as -> ->.
    by rewrite IH.
Qed.

Lemma name_start_not_space (c : ascii) :
  is_name_start c = true → is_space c = false.
Proof.
  destruct c as [[] [] [] [] [] [] [] []]; vm_compute; congruence.
Qed.

Lemma from_is_not_import (s : string) :
  strip_prefix "import" ("from" +:+ s) = None.
Proof. reflexivity. Qed.

Lemma ends_name_stops (tail : string) :
  ends_name tail = true →
  ∀ c r, tail = String c r → is_name_char c = false.
Proof.
  intros Hends c r ->. simpl in Hends. by apply negb_true_iff.
Qed.

(** A keyword, one blank and a name match, and the group is the name. *)
Lemma match_import_name (keyword m tail : string) :
  keyword = "import" ∨ keyword = "from" →
  is_module_name m = true →
  ends_name tail = true →
  match_import (keyword +:+ " " +:+ m +:+ tail) = Some (m, tail).
Proof.
  intros Hkeyword Hname Hends. destruct m as [|c m]; [done |].
  simpl in Hname. apply andb_true_iff in Hname as [Hstart Hfull].
  apply bool_decide_eq_true in Hfull.
  assert (Hspan : span is_name_char (String c m +:+ tail)
                  = (String c m, tail))
    by (apply span_full_app; [done | by apply ends_name_stops]).
  unfold match_import.
  assert (Hstrip :
            match strip_prefix "import"
                    (keyword +:+ " " +:+ String c m +:+ tail) with
            | Some rest => Some rest
            | None => strip_prefix "from"
                        (keyword +:+ " " +:+ String c m +:+ tail)
            end = Some (" " +:+ String c m +:+ tail)).
  { destruct Hkeyword as [-> | ->].
    - by rewrite strip_prefix_app.
    - by rewrite from_is_not_import, strip_prefix_app. }
  rewrite Hstrip. rewrite append_cons. change ("" +:+ ?x) with x.
  rewrite (append_cons c m tail) in *.
  cbn [span]. change (is_space " ") with true. cbv iota.
  rewrite (name_start_not_space c Hstart). rewrite Hstart.
  by rewrite Hspan.
Qed.

Lemma match_import_consumes (s name after : string) :
  match_import s = Some (name, after) →
  ∃ c consumed, s = String c (consumed +:+ after).
Proof.
  unfold match_import.
  destruct (match strip_prefix "import" s with
            | Some rest => Some rest
            | None => strip_prefix "from" s
            end) as [rest|] eqn:Ekeyword; [|done].
  assert (Hs : ∃ c keyword, s = String c keyword +:+ rest).
  { destruct (strip_prefix "import" s) as [rest'|] eqn:Eimport.
    - injection Ekeyword as ->. apply strip_prefix_Some in Eimport.
      by eexists _, _.
    - apply strip_prefix_Some in Ekeyword. by eexists _, _. }
  destruct Hs as (c & keyword & ->).
  destruct (span is_space rest) as [spaces rest2] eqn:Espaces.
  apply span_app in Espaces as ->.
  destruct spaces as [|b spaces]; [done |].
  destruct rest2 as [|c2 rest2]; [done |].
  destruct (is_name_start c2); [|done].
  destruct (span is_name_char (String c2 rest2)) as [name' after']
    eqn:Hspan.
  intros [= -> ->]. apply span_app in Hspan. rewrite Hspan.
  exists c, (keyword +:+ String b spaces +:+ name).
  rewrite append_cons. f_equal. by rewrite !append_assoc.
Qed.

Lemma findall_skip (a b : string) :
  findall_from (String.length a) (a +:+ b) = findall_from 0 b.
Proof.
  induction a as [|c a IH]; [done |]. rewrite append_cons. exact IH.
Qed.

(** The equations of [re.findall] for the import pattern. *)
Lemma findall_match (s name after : string) :
  match_import s = Some (name, after) →
  findall_imports s = name :: findall_imports after.
Proof.
  intros Hmatch. destruct (match_import_consumes s name after Hmatch)
    as (c & consumed & ->).
  unfold findall_imports. cbn [findall_from]. rewrite Hmatch.
  f_equal. cbn [String.length]. rewrite length_append.
  replace (S (String.length consumed + String.length after)
           - String.length after - 1)%nat
    with (String.length consumed) by lia.
  apply findall_skip.
Qed.

Lemma findall_no_match (c : ascii) (s : string) :
  match_import (String c s) = None →
  findall_imports (String c s) = findall_imports s.
Proof.
  intros Hmatch. unfold findall_imports. cbn [findall_from].
  by rewrite Hmatch.
Qed.

Lemma contains_cons (pattern : string) (c : ascii) (s : string) :
  contains pattern (String c s) = false →
  strip_prefix pattern (String c s) = None ∧ contains pattern s = false.
Proof.
  cbn [contains]. by destruct (strip_prefix pattern (String c s)).
Qed.

Lemma findall_no_keyword (skip : nat) (s : string) :
  contains "import" s = false →
  contains "from" s = false →
  findall_from skip s = [].
Proof.
  revert skip. induction s as [|c s IH]; intros skip Himport Hfrom; [done |].
  apply contains_cons in Himport as [Himport Himport'].
  apply contains_cons in Hfrom as [Hfrom Hfrom'].
  cbn [findall_from]. destruct skip as [|skip]; [|by apply IH].
  unfold match_import. rewrite Himport, Hfrom. by apply IH.
Qed.

Lemma warnings_are_no_errors (code : string)
    (patterns : list (string * string)) (acc : list issue) :
  List.filter (fun i => String.eqb (issue_type i) "error")
    (fold_left
       (fun issues entry =>
          match entry with
          | (pattern, description) =>
              if contains pattern code
              then issues ++ [warning pattern description]
              else issues
          end)
       patterns acc)
  = List.filter (fun i => String.eqb (issue_type i) "error") acc.
Proof.
  revert acc. induction patterns as [|[pattern description] rest IH];
    intros acc; [done |].
  cbn [fold_left]. rewrite IH.
  destruct (contains pattern code); [|done].
  rewrite List.filter_app. simpl. by rewrite app_nil_r.
Qed.

Lemma errors_are_refused_imports (env : SandboxEnvironment)
    (imports : list string) (acc : list issue) :
  List.filter (fun i => String.eqb (issue_type i) "error")
    (fold_left
       (fun issues module_name =>
          if negb (is_module_allowed env module_name)
          then issues ++ [not_allowed module_name]
          else issues)
       imports acc)
  = List.filter (fun i => String.eqb (issue_type i) "error") acc
    ++ map not_allowed
         (List.filter (fun name => negb (is_module_allowed env name))
            imports).
Proof.
  revert acc. induction imports as [|name rest IH]; intros acc.
  - simpl. by rewrite app_nil_r.
  - cbn [fold_left List.filter]. rewrite IH.
    destruct (negb (is_module_allowed env name)); [|done].
    rewrite List.filter_app. simpl. by rewrite <- app_assoc.
Qed.

Lemma safe_unfold (env : SandboxEnvironment) (code : string) :
  safe (validate_code_safety env code)
  = forallb (is_module_allowed env) (findall_imports code).
Proof.
  unfold validate_code_safety. cbn [safe].
  rewrite errors_are_refused_imports, warnings_are_no_errors. simpl.
  rewrite length_map.
  induction (findall_imports code) as [|name rest IH]; [done |].
  simpl. destruct (is_module_allowed env name); [exact IH | done].
Qed.

(** X22.  The verdict of [validate_code_safety] depends on the scanned
    import names alone: the code is reported safe exactly when every name
    that the import pattern finds is allowed, however many of the dangerous
    patterns occur in it; and code in which neither [import] nor [from]
    occurs is always reported safe. *)
Theorem safe_ignores_dangerous_patterns (env : SandboxEnvironment)
    (code : string) :
  (safe (validate_code_safety env code) = true
   ↔ ∀ name, name ∈ findall_imports code →
             is_module_allowed env name = true)
  ∧ (contains "import" code = false → contains "from" code = false →
     safe (validate_code_safety env code) = true).
Proof.
  rewrite safe_unfold. split.
  - rewrite forallb_forall. split; intros Hall name Hin.
    + apply Hall. by apply list_elem_of_In.
    + apply Hall. by apply list_elem_of_In.
  - intros Himport Hfrom. unfold findall_imports.
    by rewrite findall_no_keyword.
Qed.

(** X23.  In [from m import n] the pattern matches twice, so the imported
    name [n] is checked as if it were a module: the statement is reported
    unsafe whenever [n] is not itself an allowed module. *)
Theorem from_import_checks_the_imported_name (env : SandboxEnvironment)
    (m n rest : string) :
  is_module_name m = true →
  is_module_name n = true →
  ends_name rest = true →
  findall_imports ("from " +:+ m +:+ " import " +:+ n +:+ rest)
  = m :: n :: findall_imports rest
  ∧ (is_module_allowed env n = false →
     safe (validate_code_safety env
             ("from " +:+ m +:+ " import " +:+ n +:+ rest))
     = false).
Proof.
  intros Hm Hn Hrest.
  assert (Hfind : findall_imports
                    ("from " +:+ m +:+ " import " +:+ n +:+ rest)
                  = m :: n :: findall_imports rest).
  { rewrite (findall_match _ m (" import " +:+ n +:+ rest))
      by (by apply (match_import_name "from" m); [right | |]).
    f_equal. rewrite append_cons. rewrite findall_no_match by done.
    change ("" +:+ ?x) with x.
    apply findall_match. by apply (match_import_name "import" n); [left | |]. }
  split; [done |]. intros Hn'. rewrite safe_unfold, Hfind. simpl.
  rewrite Hn'. by destruct (is_module_allowed env m).
Qed.

(** X24.  Of the modules of one [import] statement only the first is
    checked: what follows the comma is not matched, so [import m, n] is
    reported safe when [m] is allowed, whatever [n] is. *)
Theorem import_list_checks_first_name_only (env : SandboxEnvironment)
    (m rest : string) :
  is_module_name m = true →
  contains "import" rest = false →
  contains "from" rest = false →
  findall_imports ("import " +:+ m +:+ "," +:+ rest) = [m]
  ∧ safe (validate_code_safety env ("import " +:+ m +:+ "," +:+ rest))
    = is_module_allowed env m.
Proof.
  intros Hm Himport Hfrom.
  assert (Hfind : findall_imports ("import " +:+ m +:+ "," +:+ rest) = [m]).
  { rewrite (findall_match _ m ("," +:+ rest))
      by (by apply (match_import_name "import" m); [left | |]).
    f_equal. rewrite append_cons. rewrite findall_no_match by done.
    change ("" +:+ ?x) with x. unfold findall_imports.
    by apply findall_no_keyword. }
  split; [done |]. rewrite safe_unfold, Hfind. simpl.
  by rewrite andb_true_r.
Qed.

Lemma from_import_checks_the_imported_name_witness :
  findall_imports ("from " +:+ "math" +:+ " import " +:+ "sqrt" +:+ "")
  = "math" :: "sqrt" :: findall_imports ""
  ∧ (is_module_allowed default_environment "sqrt" = false →
     safe (validate_code_safety default_environment
             ("from " +:+ "math" +:+ " import " +:+ "sqrt" +:+ ""))
     = false).
Proof.
  apply (from_import_checks_the_imported_name default_environment
           "math" "sqrt" ""); reflexivity.
Defined.

Lemma import_list_checks_first_name_only_witness :
  findall_imports ("import " +:+ "math" +:+ "," +:+ " os") = ["math"]
  ∧ safe (validate_code_safety default_environment
            ("import " +:+ "math" +:+ "," +:+ " os"))
    = is_module_allowed default_environment "math".
Proof.
  apply (import_list_checks_first_name_only default_environment
           "math" " os"); reflexivity.
Defined.

Lemma safe_ignores_dangerous_patterns_witness :
  safe (validate_code_safety default_environment
          "eval(open('/etc/passwd').read())")
  = true.
Proof.
  apply (proj2 (safe_ignores_dangerous_patterns default_environment
                  "eval(open('/etc/passwd').read())")); reflexivity.
Defined.

(** ** import_hook.py: [SafeImporter] and the counters *)

(** X25.  A [with SafeImporter()] block whose body leaves [sys.meta_path]
    alone leaves it as it found it, whether the body returns or raises, and
    ends as its body ends. *)
Theorem safe_importer_block_restores_chain {A : Type}
    (importable : string → bool) (body : finder → M A) (s : state) :
  chain_allocated s →
  let entered := (patch_import_system
                    (Some (new_environment importable)) s).1 in
  let hook := ImportHook (next_oid s) in
  meta_path (body hook entered).1 = meta_path entered →
  meta_path (with_SafeImporter importable body s).1 = meta_path s
  ∧ (with_SafeImporter importable body s).2 = (body hook entered).2.
Proof.
  intros Halloc entered hook Hbody. unfold with_SafeImporter.
  unfold entered in *. clear entered.
  rewrite patch_import_system_always_registers in * by done.
  unfold mbind, M_bind. cbn [fst] in Hbody.
  rewrite patch_import_system_always_registers by done.
  fold hook in Hbody |- *.
  unfold try_finally.
  destruct (body hook _) as [s' r] eqn:Ebody. cbn [fst snd] in *.
  unfold unpatch_import_system. run_M. rewrite Hbody.
  rewrite bool_decide_eq_true_2 by left. simpl.
  rewrite bool_decide_eq_true_2 by done. by split.
Qed.

Lemma safe_importer_block_restores_chain_witness :
  let failing : finder → M unit :=
    fun _ => lift (Raise {| exc_type := ImportError;
                            exc_message := "Module 'os' is not allowed" |}) in
  meta_path (with_SafeImporter (fun _ => true) failing Example.idle).1
  = meta_path Example.idle
  ∧ (with_SafeImporter (fun _ => true) failing Example.idle).2
    = Raise {| exc_type := ImportError;
               exc_message := "Module 'os' is not allowed" |}.
Proof.
  intros failing.
  apply (safe_importer_block_restores_chain (fun _ => true) failing
           Example.idle); [| reflexivity].
  intros oid Hin. simpl in Hin.
  repeat (apply elem_of_cons in Hin as [Hin | Hin]; [discriminate |]).
  by apply elem_of_nil in Hin.
Defined.

Section WithFinders.
Context `{Finders}.

(** X26.  [reset_counters] lifts the import limit and keeps the cache: a
    hook that refuses every module because its counter is used up serves a
    cached, allowed module again after the reset, without asking a
    finder. *)
Theorem reset_counters_lifts_the_limit (fuel : nat) (self : nat)
    (fullname : string) (path : option (list string)) (w : importing)
    (h : hook_state) (spec : ModuleSpec) :
  hooks w !! self = Some h →
  (max_imports h ≤ import_count h)%nat →
  (0 < max_imports h)%nat →
  is_module_allowed (hook_environment h) fullname = true →
  Dict.get fullname (import_cache h) = Some spec →
  (∃ w', find_spec (S fuel) self fullname path w
         = Some (w', Raise (import_limit_exceeded h)))
  ∧ ∃ w' h',
      find_spec (S fuel) self fullname path
        (set_hook self (reset_counters h) w)
      = Some (w', Return (Some spec))
      ∧ consulted w' = consulted w
      ∧ hooks w' !! self = Some h'
      ∧ import_count h' = 1
      ∧ attempted_imports h' = [fullname]
      ∧ import_cache h' = import_cache h.
Proof.
  intros Hself Hspent Hmax Hallowed Hcached. split.
  - rewrite find_spec_unfold, Hself. simpl.
    rewrite bool_decide_eq_true_2 by lia. by eexists.
  - rewrite (find_spec_cached fuel self fullname path
               (set_hook self (reset_counters h) w) (reset_counters h) spec);
      [| simpl; by rewrite lookup_insert_eq | simpl; lia | done | done].
    eexists _, _. split; [reflexivity |]. simpl.
    by rewrite lookup_insert_eq.
Qed.

End WithFinders.

Lemma reset_counters_lifts_the_limit_witness :
  let spec := {| spec_name := "math";
                 spec_loader := Some (SystemLoader "BuiltinImporter") |} in
  let h := cache_spec "math" spec ExampleImport.spent_hook in
  let w := set_hook 0 h ExampleImport.spent in
  (∃ w', find_spec (H := ExampleImport.finders) 1 0 "math" None w
         = Some (w', Raise (import_limit_exceeded h)))
  ∧ ∃ w' h',
      find_spec (H := ExampleImport.finders) 1 0 "math" None
        (set_hook 0 (reset_counters h) w)
      = Some (w', Return (Some spec))
      ∧ consulted w' = consulted w
      ∧ hooks w' !! 0 = Some h'
      ∧ import_count h' = 1
      ∧ attempted_imports h' = ["math"]
      ∧ import_cache h' = import_cache h.
Proof.
  intros spec h w.
  apply (reset_counters_lifts_the_limit (H := ExampleImport.finders)
           0 0 "math" None w h spec);
    [reflexivity | simpl; lia | simpl; lia | reflexivity | reflexivity].
Defined.
